(** * SecureSocket: the secure-transport layer of synergy

    A shallow embedding of [src/lib/plugin/ns/SecureSocket.cpp] and the
    properties of its handshake, retry, fingerprint and teardown logic.

    Conventions of the embedding:
    - a C [int] is a [Z]; the only arithmetic the file performs on one is
      [retry++], written with its 32-bit two's-complement wrap-around;
    - [String] ([std::string]) is a list of 8-bit characters;
    - the TLS engine (OpenSSL), the event queue, the log and the file system
      are external: what they answer during one call is a record passed to
      the call, what the code asks of them is appended to a trace; a query
      that only reads an answer ([SSL_get_error] and the like) takes its
      answer from the record and leaves no mark on the trace;
    - mutable members live in a record per instance, function-level
      [static] variables live in a record shared by all instances, and
      instances live in a heap indexed by address. *)

From stdpp Require Import base list gmap.
From Stdlib Require Import ZArith Ascii Lia.
From Stdlib Require String.
Import String.StringSyntax.

Delimit Scope string_scope with string.

Open Scope Z_scope.

(** ** Strings *)

Definition String := list ascii.

Definition newline : ascii := "010"%char.
Definition colon : ascii := ":"%char.

(** [std::string::insert(pos, str)]: throws [std::out_of_range] (here
    [None]) when [pos > size()]. *)
Definition String_insert (s : String) (pos : nat) (str : String) : option String :=
  if (pos <=? length s)%nat then Some (take pos s ++ str ++ drop pos s) else None.

(** [std::string::compare]: negative, zero or positive; zero exactly on equal
    strings. *)
Fixpoint String_compare (a b : String) : Z :=
  match a, b with
  | [], [] => 0
  | [], _ :: _ => -1
  | _ :: _, [] => 1
  | x :: a', y :: b' =>
      if (N_of_ascii x <? N_of_ascii y)%N then -1
      else if (N_of_ascii y <? N_of_ascii x)%N then 1
      else String_compare a' b'
  end.

Definition String_empty (s : String) : bool :=
  match s with [] => true | _ => false end.

(** ** Helpers of [synergy::string] *)

Definition hexDigit (n : N) : ascii :=
  if (n <? 10)%N then ascii_of_N (48 + n) else ascii_of_N (87 + n).

(** Modelled from the spec: [synergy::string::toHex] lives in
    lib/base/String.cpp, which is not part of the sources at hand.  The spec
    says the fingerprint is hex-encoded into two-character groups, one per
    byte; the call site passes the width 2.  Each character, read as an
    unsigned byte, becomes its two hexadecimal digits, most significant
    first. *)
Definition toHex (subject : String) (width : nat) : String :=
  flat_map (fun c => let n := N_of_ascii c in
                     [hexDigit (n / 16); hexDigit (n mod 16)]) subject.

Definition toupper (c : ascii) : ascii :=
  let n := N_of_ascii c in
  if ((97 <=? n) && (n <=? 122))%N then ascii_of_N (n - 32) else c.

(** Modelled from the spec: [synergy::string::uppercase] lives in
    lib/base/String.cpp as well.  The spec says the fingerprint is
    uppercased: every character goes through [toupper]. *)
Definition uppercase (subject : String) : String := map toupper subject.

(** ** [SecureSocket::formatFingerprint] *)

(** The loop [for (size_t i = 1; i < separators; i++)
    fingerprint.insert(i * 3 - 1, ":")], by recursion on the number [n] of
    iterations left; [i] is the loop variable. *)
Fixpoint insertSeparators (n i : nat) (fingerprint : String) : option String :=
  match n with
  | O => Some fingerprint
  | S n' =>
      match String_insert fingerprint (i * 3 - 1) [colon] with
      | Some fingerprint' => insertSeparators n' (S i) fingerprint'
      | None => None
      end
  end.

Definition formatFingerprint (fingerprint : String) (hex separator : bool)
  : option String :=
  let fingerprint := if hex then toHex fingerprint 2 else fingerprint in
  let fingerprint := uppercase fingerprint in
  if separator then
    let separators := (length fingerprint / 2)%nat in
    insertSeparators (separators - 1) 1 fingerprint
  else Some fingerprint.

(** ** The trust-store file, read through [std::ifstream] *)

(** What a path holds, as a stream finds it: nothing that opens (no file, no
    permission); a text that is read to its end; or something that opens and
    then fails every read (a directory, a device that reports an error). *)
Inductive Stored :=
| cannot_open
| holds (text : String)
| cannot_read.

Record ifstream := mk_ifstream {
  is_open : bool;
  eofbit : bool;
  failbit : bool;
  badbit : bool;
  rdbuf : String;         (* what is left to read *)
  read_error : bool       (* the file under the buffer fails every read *)
}.

Definition good (f : ifstream) : bool :=
  negb (eofbit f) && negb (failbit f) && negb (badbit f).

(** [file.open(name)]: a file that is absent or cannot be opened leaves the
    stream closed with [failbit] set; any other leaves it open and good,
    whether its content can be read or not. *)
Definition ifstream_open (file : Stored) : ifstream :=
  match file with
  | cannot_open => mk_ifstream false false true false [] false
  | holds c => mk_ifstream true false false false c false
  | cannot_read => mk_ifstream true false false false [] true
  end.

(** Characters up to the next newline; the rest after it, or [None] when the
    end of the file came first. *)
Fixpoint read_line (s : String) : String * option String :=
  match s with
  | [] => ([], None)
  | c :: s' =>
      if Ascii.eqb c newline then ([], Some s')
      else let '(l, r) := read_line s' in (c :: l, r)
  end.

(** [std::getline(file, str)].  On a stream that is not good the sentry
    fails: [failbit] is set and [str] is left as it was.  Otherwise [str] is
    erased and filled up to the delimiter, which is consumed; reaching the
    end of the file sets [eofbit], and [failbit] too when nothing was
    extracted.  A read that fails sets [badbit], and [failbit] since nothing
    was extracted; it does not set [eofbit]. *)
Definition getline (file : ifstream) (str : String) : ifstream * String :=
  if good file then
    if read_error file then
      (mk_ifstream (is_open file) false true true (rdbuf file) (read_error file), [])
    else
      match read_line (rdbuf file) with
      | (l, Some rest) =>
          (mk_ifstream (is_open file) false false false rest (read_error file), l)
      | (l, None) =>
          (mk_ifstream (is_open file) true (String_empty l) false []
             (read_error file), l)
      end
  else (mk_ifstream (is_open file) (eofbit file) true (badbit file) (rdbuf file)
          (read_error file), str).

(** The scan of [verifyCertFingerprint]:
    [while (!file.eof() && file.is_open()) { getline(file, fileLine);
       if (!fileLine.empty()) if (fileLine.compare(fingerprint) == 0)
         { isValid = true; break; } }]
    The result is the final [isValid]; [None] when [fuel] iterations did not
    end the loop. *)
Fixpoint scanTrustedServers (fuel : nat) (file : ifstream) (fileLine : String)
    (fingerprint : String) : option bool :=
  if negb (eofbit file) && is_open file then
    match fuel with
    | O => None
    | S fuel' =>
        let '(file', fileLine') := getline file fileLine in
        if negb (String_empty fileLine')
           && (String_compare fileLine' fingerprint =? 0)
        then Some true
        else scanTrustedServers fuel' file' fileLine' fingerprint
    end
  else Some false.

(** The tail of [verifyCertFingerprint], from [file.open] to [file.close]:
    the membership test of the trust store, on whatever the path holds.  On
    a file that is read to its end every iteration either consumes a
    character or reaches the end, so one more iteration than the file has
    characters ends the loop; [None] is a loop that no number of iterations
    ends ([lookupStored_returns] below). *)
Definition lookupStored (store : Stored) (fingerprint : String) : option bool :=
  let file := ifstream_open store in
  scanTrustedServers (S (length (rdbuf file))) file [] fingerprint.

(** A path of the file system of [Engine] below, which tells the paths that
    do not open from those that are read to their end. *)
Definition stored (content : option String) : Stored :=
  match content with
  | Some text => holds text
  | None => cannot_open
  end.

Definition lookupTrustedServers (content : option String) (fingerprint : String)
  : option bool :=
  lookupStored (stored content) fingerprint.

(** ** The TLS engine *)

(** Result codes of [SSL_get_error], as in OpenSSL's [ssl.h]. *)
Module OpenSSL.
Definition SSL_ERROR_NONE : Z := 0.
Definition SSL_ERROR_SSL : Z := 1.
Definition SSL_ERROR_WANT_READ : Z := 2.
Definition SSL_ERROR_WANT_WRITE : Z := 3.
Definition SSL_ERROR_WANT_X509_LOOKUP : Z := 4.
Definition SSL_ERROR_SYSCALL : Z := 5.
Definition SSL_ERROR_ZERO_RETURN : Z := 6.
Definition SSL_ERROR_WANT_CONNECT : Z := 7.
Definition SSL_ERROR_WANT_ACCEPT : Z := 8.
End OpenSSL.
Import OpenSSL.

(** Handles are opaque addresses; a null pointer is [None]. *)
Definition SSL_CTX := positive.
Definition SSL := positive.
Definition X509 := positive.

(** What the engine, the operating system and the file system answer during
    one call into the socket.  Each primitive is asked at most once per
    call.  [files] tells the paths that do not open from those that are read
    to their end; a path that opens and cannot be read is [cannot_read],
    which [verifyCertFingerprint_on] below takes in its place. *)
Record Engine := mk_Engine {
  ret_SSL_CTX_new : option SSL_CTX;
  ret_SSL_new : option SSL;
  ret_SSL_connect : Z;
  ret_SSL_accept : Z;
  ret_SSL_read : Z;
  ret_SSL_write : Z;
  ret_SSL_get_error : Z -> Z;               (* from the operation's status *)
  ret_ERR_peek_error : Z;
  ret_ERR_get_error : Z;
  ret_ERR_error_string : String;
  ret_SSL_get_peer_certificate : option X509;
  ret_X509_digest : option X509 -> Z * String;   (* result, digest bytes *)
  ret_SSL_CIPHER_description : option (option String);
  ret_throwErrorOnSocket : option String;   (* [what()] of the exception *)
  ret_getProfileDirectory : String;
  files : String -> option String          (* path to content *)
}.

Inductive LogLevel := CLOG_ERR | CLOG_INFO | CLOG_DEBUG | CLOG_DEBUG2.

Inductive SocketEvent := stopRetry | disconnected | inputShutdown.

Inductive Job := serviceConnect_job | serviceAccept_job.

Inductive LogArg := arg_int (n : Z) | arg_str (s : String).

(** What the socket asks of its environment, in order: every call that acts
    on the engine, the socket, the files, the event queue or the log.  The
    queries that only read an answer off a handle, [SSL_get_error],
    [SSL_get_peer_certificate], [SSL_get_current_cipher] and
    [SSL_CIPHER_description], and [ERR_peek_error] and [ERR_error_string_n],
    are answered from [Engine] where the code makes them and are not
    events. *)
Inductive Event :=
| SSL_CTX_new (server : bool)
| SSL_CTX_set_options (ctx : option SSL_CTX)
| SSL_new (ctx : option SSL_CTX)
| SSL_set_fd (ssl : option SSL) (fd : Z)
| SSL_connect (ssl : option SSL)
| SSL_accept (ssl : option SSL)
| SSL_read (ssl : option SSL) (size : Z)
| SSL_write (ssl : option SSL) (size : Z)
| SSL_shutdown (ssl : option SSL)
| SSL_free (ssl : option SSL)
| SSL_CTX_free (ctx : option SSL_CTX)
| ERR_get_error
| X509_digest (cert : option X509)
| X509_NAME_oneline (cert : option X509)
| X509_free (cert : option X509)
| throwErrorOnSocket
| ifstream_open_file (path : String)
| ifstream_close
| sendEvent (e : SocketEvent)
| setJob (j : Job)
| LOG (level : LogLevel) (format : String.string) (args : list LogArg)
| ARCH_sleep (seconds : Z)
| TCPSocket_close
| delete_m_ssl.

Arguments LOG level format%_string args.

(** ** State *)

Module Ssl.
Record t := mk {
  m_context : option SSL_CTX;
  m_ssl : option SSL
}.
End Ssl.

Record SecureSocket := mk_SecureSocket {
  m_secureReady : bool;
  m_fatal : bool;
  m_maxRetry : Z;
  m_ssl : Ssl.t
}.

(** The four function-level [static int retry] variables: one per function,
    shared by every instance of the class. *)
Record Statics := mk_Statics {
  secureRead_retry : Z;
  secureWrite_retry : Z;
  secureAccept_retry : Z;
  secureConnect_retry : Z
}.

(** The [int& retry] handed to [checkResult]. *)
Inductive RetryRef :=
  retry_of_secureRead | retry_of_secureWrite
| retry_of_secureAccept | retry_of_secureConnect.

Record State := mk_State {
  statics : Statics;
  this : SecureSocket;
  trace : list Event
}.

(** Computations of a member function: state passing, [None] when the call
    does not return. *)
Definition M (A : Type) : Type := State -> option (A * State).

Definition ret {A} (a : A) : M A := fun st => Some (a, st).

Definition bind {A B} (m : M A) (k : A -> M B) : M B :=
  fun st => match m st with
            | Some (a, st') => k a st'
            | None => None
            end.

Definition diverge {A} : M A := fun _ => None.

Notation "'do' x <- m ;; k" := (bind m (fun x => k))
  (at level 10, x name, m at level 99, k at level 200).
Notation "'call' m ;; k" := (bind m (fun _ => k))
  (at level 10, m at level 99, k at level 200).

Definition gets {A} (f : State -> A) : M A := fun st => Some (f st, st).

Definition emit (ev : Event) : M unit :=
  fun st => Some (tt, mk_State (statics st) (this st) (trace st ++ [ev])).

Definition set_this (f : SecureSocket -> SecureSocket) : M unit :=
  fun st => Some (tt, mk_State (statics st) (f (this st)) (trace st)).

Definition when (b : bool) (m : M unit) : M unit := if b then m else ret tt.

Definition get_retry (r : RetryRef) (s : Statics) : Z :=
  match r with
  | retry_of_secureRead => secureRead_retry s
  | retry_of_secureWrite => secureWrite_retry s
  | retry_of_secureAccept => secureAccept_retry s
  | retry_of_secureConnect => secureConnect_retry s
  end.

Definition set_retry (r : RetryRef) (v : Z) (s : Statics) : Statics :=
  match r with
  | retry_of_secureRead =>
      mk_Statics v (secureWrite_retry s) (secureAccept_retry s) (secureConnect_retry s)
  | retry_of_secureWrite =>
      mk_Statics (secureRead_retry s) v (secureAccept_retry s) (secureConnect_retry s)
  | retry_of_secureAccept =>
      mk_Statics (secureRead_retry s) (secureWrite_retry s) v (secureConnect_retry s)
  | retry_of_secureConnect =>
      mk_Statics (secureRead_retry s) (secureWrite_retry s) (secureAccept_retry s) v
  end.

Definition load (r : RetryRef) : M Z := gets (fun st => get_retry r (statics st)).

Definition store (r : RetryRef) (v : Z) : M unit :=
  fun st => Some (tt, mk_State (set_retry r v (statics st)) (this st) (trace st)).

(** [int] arithmetic: the value of [x] brought back into the 32-bit signed
    range. *)
Definition wrap32 (x : Z) : Z := (x + 2 ^ 31) mod 2 ^ 32 - 2 ^ 31.

(** ** Members declared in the class header *)

Definition kMaxRetryCount : Z := 100000.

(** Modelled from the spec: the accessors [isFatal()], [isFatal(bool)] and
    [maxRetry()] are defined in SecureSocket.h, which is not part of the
    sources at hand.  The spec has the session marked Fatal by a flag and a
    configured max-retry bound per socket: they read and write [m_fatal] and
    read [m_maxRetry]. *)
Definition isFatal : M bool := gets (fun st => m_fatal (this st)).

(** Modelled from the spec: [isFatal(bool)], the setter declared next to
    [isFatal()] in SecureSocket.h; it marks the session Fatal or not. *)
Definition set_isFatal (b : bool) : M unit :=
  set_this (fun s => mk_SecureSocket (m_secureReady s) b (m_maxRetry s) (m_ssl s)).

(** Modelled from the spec: [maxRetry()], declared in SecureSocket.h; it
    reads the configured max-retry bound of this socket. *)
Definition maxRetry : M Z := gets (fun st => m_maxRetry (this st)).

Definition set_m_secureReady (b : bool) : M unit :=
  set_this (fun s => mk_SecureSocket b (m_fatal s) (m_maxRetry s) (m_ssl s)).

Definition set_m_ssl (h : option SSL) : M unit :=
  set_this (fun s => mk_SecureSocket (m_secureReady s) (m_fatal s) (m_maxRetry s)
                       (Ssl.mk (Ssl.m_context (m_ssl s)) h)).

Definition set_m_context (c : option SSL_CTX) : M unit :=
  set_this (fun s => mk_SecureSocket (m_secureReady s) (m_fatal s) (m_maxRetry s)
                       (Ssl.mk c (Ssl.m_ssl (m_ssl s)))).

Definition get_m_ssl : M (option SSL) := gets (fun st => Ssl.m_ssl (m_ssl (this st))).

Definition get_m_context : M (option SSL_CTX) :=
  gets (fun st => Ssl.m_context (m_ssl (this st))).

(** ** Member functions *)

Definition isSecureReady : M bool := gets (fun st => m_secureReady (this st)).

Definition disconnect : M unit :=
  call emit (sendEvent stopRetry) ;;
  call emit (sendEvent disconnected) ;;
  emit (sendEvent inputShutdown).

Definition getError (e : Engine) : M String :=
  call emit ERR_get_error ;;
  if negb (ret_ERR_get_error e =? 0) then ret (ret_ERR_error_string e)
  else ret [].

Definition showError (e : Engine) (reason : option String) : M unit :=
  call match reason with
       | Some r => emit (LOG CLOG_ERR "%s" [arg_str r])
       | None => ret tt
       end ;;
  do error <- getError e ;;
  when (negb (String_empty error)) (emit (LOG CLOG_ERR "%s" [arg_str error])).

Definition is_want (errorCode : Z) : bool :=
  (errorCode =? SSL_ERROR_WANT_READ) || (errorCode =? SSL_ERROR_WANT_WRITE)
  || (errorCode =? SSL_ERROR_WANT_CONNECT) || (errorCode =? SSL_ERROR_WANT_ACCEPT).

Definition checkResult (e : Engine) (status : Z) (retry : RetryRef) : M unit :=
  let errorCode := ret_SSL_get_error e status in
  call
    (if errorCode =? SSL_ERROR_NONE then
       store retry 0
     else if errorCode =? SSL_ERROR_ZERO_RETURN then
       call set_isFatal true ;;
       emit (LOG CLOG_DEBUG "ssl connection closed" [])
     else if is_want errorCode then
       do r <- load retry ;;
       call store retry (wrap32 (r + 1)) ;;
       emit (LOG CLOG_DEBUG2 "passive ssl error, error=%d, attempt=%d"
               [arg_int errorCode; arg_int (wrap32 (r + 1))])
     else if errorCode =? SSL_ERROR_SYSCALL then
       call emit (LOG CLOG_ERR "ssl error occurred (system call failure)" []) ;;
       call when (ret_ERR_peek_error e =? 0)
              (if status =? 0 then
                 emit (LOG CLOG_ERR "eof violates ssl protocol" [])
               else if status =? -1 then
                 call emit throwErrorOnSocket ;;
                 match ret_throwErrorOnSocket e with
                 | Some what => emit (LOG CLOG_ERR "%s" [arg_str what])
                 | None => ret tt
                 end
               else ret tt) ;;
       set_isFatal true
     else if errorCode =? SSL_ERROR_SSL then
       call emit (LOG CLOG_ERR "ssl error occurred (generic failure)" []) ;;
       set_isFatal true
     else
       call emit (LOG CLOG_ERR "ssl error occurred (unknown failure)" []) ;;
       set_isFatal true) ;;
  do r <- load retry ;;
  do limit <- maxRetry ;;
  call when (r >? limit)
         (call emit (LOG CLOG_ERR "passive ssl error limit exceeded: %d" [arg_int r]) ;;
          set_isFatal true) ;;
  do fatal <- isFatal ;;
  when fatal
    (call store retry 0 ;;
     call showError e None ;;
     disconnect).

Definition secureRead (e : Engine) (size : Z) (read : Z) : M (Z * Z) :=
  do ssl <- get_m_ssl ;;
  match ssl with
  | Some _ =>
      call emit (LOG CLOG_DEBUG2 "reading secure socket" []) ;;
      call emit (SSL_read ssl size) ;;
      let read := ret_SSL_read e in
      call checkResult e read retry_of_secureRead ;;
      do retry <- load retry_of_secureRead ;;
      if negb (retry =? 0) then ret (0, read)
      else
        do fatal <- isFatal ;;
        if fatal then ret (-1, read) else ret (read, read)
  | None => ret (read, read)
  end.

Definition secureWrite (e : Engine) (size : Z) (wrote : Z) : M (Z * Z) :=
  do ssl <- get_m_ssl ;;
  match ssl with
  | Some _ =>
      call emit (LOG CLOG_DEBUG2 "writing secure socket:%p" []) ;;
      call emit (SSL_write ssl size) ;;
      let wrote := ret_SSL_write e in
      call checkResult e wrote retry_of_secureWrite ;;
      do retry <- load retry_of_secureWrite ;;
      if negb (retry =? 0) then ret (0, wrote)
      else
        do fatal <- isFatal ;;
        if fatal then ret (-1, wrote) else ret (wrote, wrote)
  | None => ret (wrote, wrote)
  end.

Definition createSSL (e : Engine) : M unit :=
  do ssl <- get_m_ssl ;;
  match ssl with
  | None =>
      do ctx <- get_m_context ;;
      call emit (SSL_new ctx) ;;
      set_m_ssl (ret_SSL_new e)
  | Some _ => ret tt
  end.

Definition logCipher (e : Engine) : M unit :=
  match ret_SSL_CIPHER_description e with
  | Some (Some cipherVersion) => emit (LOG CLOG_INFO "%s" [arg_str cipherVersion])
  | _ => ret tt
  end.

Definition secureAccept (e : Engine) (socket : Z) : M Z :=
  call createSSL e ;;
  do ssl <- get_m_ssl ;;
  call emit (SSL_set_fd ssl socket) ;;
  call emit (LOG CLOG_DEBUG2 "accepting secure socket" []) ;;
  call emit (SSL_accept ssl) ;;
  let r := ret_SSL_accept e in
  call checkResult e r retry_of_secureAccept ;;
  do fatal <- isFatal ;;
  if fatal then
    call emit (LOG CLOG_ERR "failed to accept secure socket" []) ;;
    call emit (LOG CLOG_INFO "client connection may not be secure" []) ;;
    call set_m_secureReady false ;;
    call emit (ARCH_sleep 1) ;;
    ret (-1)
  else
    do retry <- load retry_of_secureAccept ;;
    if retry =? 0 then
      call set_m_secureReady true ;;
      call emit (LOG CLOG_INFO "accepted secure socket" []) ;;
      call logCipher e ;;
      ret 1
    else if retry >? 0 then
      call emit (LOG CLOG_DEBUG2 "retry accepting secure socket" []) ;;
      call set_m_secureReady false ;;
      ret 0
    else
      call emit (LOG CLOG_ERR "unexpected state attempting to accept connection" []) ;;
      ret (-1).

Definition showCertificate (e : Engine) : M bool :=
  let cert := ret_SSL_get_peer_certificate e in
  match cert with
  | Some _ =>
      call emit (X509_NAME_oneline cert) ;;
      call emit (LOG CLOG_INFO "server ssl certificate info: %s" []) ;;
      call emit (X509_free cert) ;;
      ret true
  | None =>
      call showError e (Some (String.list_ascii_of_string "server has no ssl certificate")) ;;
      ret false
  end.

Definition kFingerprintDirName : String :=
  String.list_ascii_of_string "SSL/Fingerprints".
Definition kFingerprintTrustedServersFilename : String :=
  String.list_ascii_of_string "TrustedServers.txt".

(** [sprintf("%s/%s/%s", profile directory, kFingerprintDirName,
    kFingerprintTrustedServersFilename)]. *)
Definition trustedServersFilename (e : Engine) : String :=
  ret_getProfileDirectory e ++ ["/"%char] ++ kFingerprintDirName
    ++ ["/"%char] ++ kFingerprintTrustedServersFilename.

(** The body of [verifyCertFingerprint], with [store] for what the
    trust-store path holds.  [formatFingerprint(fingerprint)] is called with
    the default arguments of its declaration, [hex = true] and
    [separator = true].  An exception that leaves [formatFingerprint] leaves
    this function too, and a scan that does not end keeps it from
    returning. *)
Definition verifyCertFingerprint_on (e : Engine) (store : Stored) : M bool :=
  let cert := ret_SSL_get_peer_certificate e in
  call emit (X509_digest cert) ;;
  let '(digestResult, tempFingerprint) := ret_X509_digest e cert in
  if digestResult <=? 0 then
    call emit (LOG CLOG_ERR "failed to calculate fingerprint, digest result: %d"
                 [arg_int digestResult]) ;;
    ret false
  else
    match formatFingerprint tempFingerprint true true with
    | None => diverge
    | Some fingerprint =>
        call emit (LOG CLOG_INFO "server fingerprint: %s" [arg_str fingerprint]) ;;
        call emit (ifstream_open_file (trustedServersFilename e)) ;;
        match lookupStored store fingerprint with
        | None => diverge
        | Some isValid =>
            call emit ifstream_close ;;
            ret isValid
        end
    end.

(** [SecureSocket::verifyCertFingerprint], on the file system of [e]. *)
Definition verifyCertFingerprint (e : Engine) : M bool :=
  verifyCertFingerprint_on e (stored (files e (trustedServersFilename e))).

Definition secureConnect (e : Engine) (socket : Z) : M Z :=
  call createSSL e ;;
  do ssl <- get_m_ssl ;;
  call emit (SSL_set_fd ssl socket) ;;
  call emit (LOG CLOG_DEBUG2 "connecting secure socket" []) ;;
  call emit (SSL_connect ssl) ;;
  let r := ret_SSL_connect e in
  call checkResult e r retry_of_secureConnect ;;
  do fatal <- isFatal ;;
  if fatal then
    call emit (LOG CLOG_ERR "failed to connect secure socket" []) ;;
    ret (-1)
  else
    do retry <- load retry_of_secureConnect ;;
    if retry >? 0 then
      call emit (LOG CLOG_DEBUG2 "retry connect secure socket" []) ;;
      call set_m_secureReady false ;;
      ret 0
    else
      call set_m_secureReady true ;;
      do verified <- verifyCertFingerprint e ;;
      if verified then
        call emit (LOG CLOG_INFO "connected to secure socket" []) ;;
        do shown <- showCertificate e ;;
        if negb shown then
          call disconnect ;;
          ret (-1)
        else
          call emit (LOG CLOG_DEBUG2 "connected secure socket" []) ;;
          call logCipher e ;;
          ret 1
      else
        call emit (LOG CLOG_ERR "failed to verify server certificate fingerprint" []) ;;
        call disconnect ;;
        ret (-1).

(** The scheduler's continuations and what they hand back to it. *)
Inductive JobResult := newJob | sameJob | noJob.

Definition jobResult (status : Z) : JobResult :=
  if status >? 0 then newJob
  else if status =? 0 then sameJob
  else noJob.

Definition serviceConnect (e : Engine) (fd : Z) : M JobResult :=
  do status <- secureConnect e fd ;;
  ret (jobResult status).

Definition serviceAccept (e : Engine) (fd : Z) : M JobResult :=
  do status <- secureAccept e fd ;;
  ret (jobResult status).

(** The parameterless [secureConnect()] and [secureAccept()] only register
    the continuation. *)
Definition secureConnect_register : M unit := emit (setJob serviceConnect_job).
Definition secureAccept_register : M unit := emit (setJob serviceAccept_job).

(** ** Construction, close and destruction *)

(** The members as the constructors leave them, with the [Ssl] structure as
    the first lines of [initSsl] allocate it. *)
Definition SecureSocket_new : SecureSocket :=
  mk_SecureSocket false false kMaxRetryCount (Ssl.mk None None).

(** The start-up calls of the library ([SSL_library_init] and the like)
    leave no mark on the socket and are not recorded. *)
Definition initContext (e : Engine) (server : bool) : M unit :=
  call emit (SSL_CTX_new server) ;;
  call set_m_context (ret_SSL_CTX_new e) ;;
  do ctx <- get_m_context ;;
  call emit (SSL_CTX_set_options ctx) ;;
  match ctx with
  | None => showError e None
  | Some _ => ret tt
  end.

Definition initSsl (e : Engine) (server : bool) : M unit :=
  call set_m_context None ;;
  call set_m_ssl None ;;
  initContext e server.

Definition close : M unit :=
  call set_isFatal true ;;
  do ssl <- get_m_ssl ;;
  call emit (SSL_shutdown ssl) ;;
  emit TCPSocket_close.

(** [~SecureSocket].  Its last statement, [delete m_ssl], ends the life of
    the structure that holds the two handles, and the object itself is gone
    when the destructor returns: the state it yields here tells what the
    members were at that moment, and no member function may run on it.
    [destroy] below takes the instance off the heap. *)
Definition destructor : M unit :=
  call set_isFatal true ;;
  do ssl <- get_m_ssl ;;
  call match ssl with
       | Some _ =>
           call emit (SSL_shutdown ssl) ;;
           call emit (SSL_free ssl) ;;
           set_m_ssl None
       | None => ret tt
       end ;;
  do ctx <- get_m_context ;;
  call match ctx with
       | Some _ =>
           call emit (SSL_CTX_free ctx) ;;
           set_m_context None
       | None => ret tt
       end ;;
  call emit (ARCH_sleep 1) ;;
  emit delete_m_ssl.

(** ** Several sockets in one process *)

Record World := mk_World {
  globals : Statics;                 (* the function-level statics *)
  heap : gmap nat SecureSocket;      (* the live instances, by address *)
  history : list (nat * Event)
}.

(** A member function called on the instance at address [a]. *)
Definition invoke {A} (a : nat) (m : M A) (w : World) : option (A * World) :=
  match heap w !! a with
  | None => None
  | Some obj =>
      match m (mk_State (globals w) obj []) with
      | None => None
      | Some (r, st) =>
          Some (r, mk_World (statics st) (<[a := this st]> (heap w))
                            (history w ++ map (pair a) (trace st)))
      end
  end.

(** The end of the instance at address [a]: its destructor runs and the
    address is live no more. *)
Definition destroy (a : nat) (w : World) : option World :=
  match invoke a destructor w with
  | Some (_, w') => Some (mk_World (globals w') (delete a (heap w')) (history w'))
  | None => None
  end.

(** [n] calls of the same member function in a row. *)
Fixpoint invoke_many {A} (n : nat) (a : nat) (m : M A) (w : World) : option World :=
  match n with
  | O => Some w
  | S n' =>
      match invoke a m w with
      | Some (_, w') => invoke_many n' a m w'
      | None => None
      end
  end.

(** ** Reference notions the properties are stated against *)

(** The sixteen upper-case hexadecimal digits. *)
Definition upperHexDigits : String := String.list_ascii_of_string "0123456789ABCDEF".

Definition upperHexDigit (n : N) : ascii := nth (N.to_nat n) upperHexDigits "0"%char.

(** The two-character group of one byte, most significant digit first. *)
Definition hexGroup (c : ascii) : String :=
  [upperHexDigit (N_of_ascii c / 16); upperHexDigit (N_of_ascii c mod 16)].

Fixpoint joinWith (sep : ascii) (groups : list String) : String :=
  match groups with
  | [] => []
  | [g] => g
  | g :: gs => g ++ sep :: joinWith sep gs
  end.

(** The canonical form of a raw digest: its groups joined by colons. *)
Definition canonicalForm (digest : String) : String :=
  joinWith colon (map hexGroup digest).

(** A canonical fingerprint string is what a 20-byte digest formats to. *)
Definition canonical (fingerprint : String) : Prop :=
  exists digest, length digest = 20%nat
                 /\ formatFingerprint digest true true = Some fingerprint.

(** The lines of a text file: the pieces between newline characters. *)
Fixpoint lines (s : String) : list String :=
  match s with
  | [] => [[]]
  | c :: s' =>
      if Ascii.eqb c newline then [] :: lines s'
      else match lines s' with
           | l :: ls => (c :: l) :: ls
           | [] => [[c]]
           end
  end.

(** A line grants trust to a fingerprint when it is not empty and equal to
    it. *)
Definition grants (fingerprint line : String) : bool :=
  negb (String_empty line) && (String_compare line fingerprint =? 0).

(** An engine read or write of application data. *)
Definition is_data_io (ev : Event) : bool :=
  match ev with
  | SSL_read _ _ | SSL_write _ _ => true
  | _ => false
  end.

(** The events that act on a handle of the engine: its creation and
    configuration, the handshakes, the transfers, the shutdown and the
    release.  The queries on a handle are no events (see [Event]), so that a
    list of events without any of these may still stand for code that reads
    an error code, a certificate or a cipher off the handle. *)
Definition is_engine_call (ev : Event) : bool :=
  match ev with
  | SSL_CTX_new _ | SSL_CTX_set_options _ | SSL_new _ | SSL_set_fd _ _
  | SSL_connect _ | SSL_accept _ | SSL_read _ _ | SSL_write _ _
  | SSL_shutdown _ | SSL_free _ | SSL_CTX_free _ => true
  | _ => false
  end.

(** What the lookup answers for a fingerprint: some line of the file grants
    trust; no file, no trust. *)
Definition trusted (content : option String) (fingerprint : String) : bool :=
  match content with
  | Some text => existsb (grants fingerprint) (lines text)
  | None => false
  end.

(** A state that differs from [st] by the events appended to its trace. *)
Definition logged (st : State) (events : list Event) : State :=
  mk_State (statics st) (this st) (trace st ++ events).

(** What [checkResult] does to the counter before it looks at the bound. *)
Definition counted (errorCode : Z) (retry : Z) : Z :=
  if errorCode =? SSL_ERROR_NONE then 0
  else if is_want errorCode then wrap32 (retry + 1)
  else retry.

(** The diagnostics [showError] logs after it has popped the engine's error
    queue. *)
Definition diagnostics (e : Engine) : list Event :=
  if negb (ret_ERR_get_error e =? 0) && negb (String_empty (ret_ERR_error_string e))
  then [LOG CLOG_ERR "%s" [arg_str (ret_ERR_error_string e)]]
  else [].

Definition teardown_events (e : Engine) : list Event :=
  ERR_get_error :: diagnostics e
    ++ [sendEvent stopRetry; sendEvent disconnected; sendEvent inputShutdown].

(** What [~SecureSocket] asks of the engine for the handles it holds. *)
Definition release_events (handles : Ssl.t) : list Event :=
  match Ssl.m_ssl handles with
  | Some _ => [SSL_shutdown (Ssl.m_ssl handles); SSL_free (Ssl.m_ssl handles)]
  | None => []
  end
  ++ match Ssl.m_context handles with
     | Some _ => [SSL_CTX_free (Ssl.m_context handles)]
     | None => []
     end.

(** ** Sample data *)

(** A 20-byte digest and the text of its fingerprint. *)
Definition sample_digest : String :=
  map ascii_of_nat
    [171; 205; 239; 0; 1; 35; 69; 103; 137; 16; 50; 84; 118; 152; 186; 220; 254; 15; 240; 90]%nat.

Definition sample_fingerprint : String :=
  String.list_ascii_of_string
    "AB:CD:EF:00:01:23:45:67:89:10:32:54:76:98:BA:DC:FE:0F:F0:5A".

(** An engine that answers every operation with [status] and every
    [SSL_get_error] with [errorCode], whose peer shows [cert], and a file
    system in which every path holds [store]. *)
Definition scripted (status errorCode : Z) (cert : option X509)
    (digest : option X509 -> Z * String) (store : option String) : Engine :=
  {| ret_SSL_CTX_new := Some 1%positive;
     ret_SSL_new := Some 2%positive;
     ret_SSL_connect := status;
     ret_SSL_accept := status;
     ret_SSL_read := status;
     ret_SSL_write := status;
     ret_SSL_get_error := fun _ => errorCode;
     ret_ERR_peek_error := 0;
     ret_ERR_get_error := 0;
     ret_ERR_error_string := [];
     ret_SSL_get_peer_certificate := cert;
     ret_X509_digest := digest;
     ret_SSL_CIPHER_description := None;
     ret_throwErrorOnSocket := None;
     ret_getProfileDirectory := String.list_ascii_of_string "/home/user/.synergy";
     files := fun _ => store |}.

(** A peer without a certificate, a digest that succeeds on it all the same,
    and a trust store that holds the resulting fingerprint. *)
Definition careless (store : option String) : Engine :=
  scripted 1 0 None (fun _ => (1, sample_digest)) store.

(** The digest of a well-behaved engine: nothing for a null certificate. *)
Definition sha1_digest (cert : option X509) : Z * String :=
  match cert with
  | Some _ => (1, sample_digest)
  | None => (0, [])
  end.

(** A socket after [initSsl] and a first handshake step, and one whose
    handshake has completed. *)
Definition handshaking : SecureSocket :=
  mk_SecureSocket false false kMaxRetryCount (Ssl.mk (Some 1%positive) (Some 2%positive)).

Definition connected : SecureSocket :=
  mk_SecureSocket true false kMaxRetryCount (Ssl.mk (Some 1%positive) (Some 2%positive)).

(** A socket after [initSsl], before any handshake step. *)
Definition initialised : SecureSocket :=
  mk_SecureSocket false false kMaxRetryCount (Ssl.mk (Some 1%positive) None).

Definition fresh_statics : Statics := mk_Statics 0 0 0 0.

(** A connected socket that has been marked Fatal, as [close] leaves it. *)
Definition fatal_socket : SecureSocket :=
  mk_SecureSocket true true kMaxRetryCount (Ssl.mk (Some 1%positive) (Some 2%positive)).

(** A connected socket whose bound has been set to 3. *)
Definition over_bound_socket : SecureSocket :=
  mk_SecureSocket true false 3 (Ssl.mk (Some 1%positive) (Some 2%positive)).

(** An engine that is not ready yet: every operation wants to read first. *)
Definition want_read : Engine :=
  scripted (-1) SSL_ERROR_WANT_READ None sha1_digest None.

(** The text of a trust store whose only line is [sample_fingerprint] with
    its last hex pair changed. *)
Definition altered_store : String :=
  String.list_ascii_of_string
    "AB:CD:EF:00:01:23:45:67:89:10:32:54:76:98:BA:DC:FE:0F:F0:5B" ++ [newline].

(** A trust store that holds the altered line and then [sample_fingerprint]
    itself. *)
Definition trusting_store : String :=
  altered_store ++ sample_fingerprint ++ [newline].

(** The same two lines the other way round. *)
Definition swapped_store : String :=
  sample_fingerprint ++ [newline] ++ altered_store.

Definition carriage_return : ascii := "013"%char.

(** Two connected sockets in one process, at addresses 1 and 2, before any
    retry has been counted. *)
Definition two_sockets : World :=
  mk_World fresh_statics (<[1%nat := connected]> (<[2%nat := connected]> ∅)) [].

(** A handshake that completes with a peer whose certificate digests to
    [sample_digest], against the trust store [store]. *)
Definition negotiated (store : option String) : Engine :=
  scripted 1 SSL_ERROR_NONE (Some 3%positive) sha1_digest store.

(** ** Notions for the further properties *)

(** Whether a pass started on [obj] with the statics [sts] ends Fatal, and
    the connection handle a handshake step works on: the one the socket
    has, or else the one [SSL_new] hands out. *)
Definition fatal_after (e : Engine) (status : Z) (retry : RetryRef)
    (sts : Statics) (obj : SecureSocket) : bool :=
  m_fatal obj
  || negb ((ret_SSL_get_error e status =? SSL_ERROR_NONE)
           || is_want (ret_SSL_get_error e status))
  || (counted (ret_SSL_get_error e status) (get_retry retry sts) >? m_maxRetry obj).

Definition handle_for_handshake (e : Engine) (obj : SecureSocket) : option SSL :=
  match Ssl.m_ssl (m_ssl obj) with
  | Some h => Some h
  | None => ret_SSL_new e
  end.

Definition createSSL_events (obj : SecureSocket) : list Event :=
  match Ssl.m_ssl (m_ssl obj) with
  | Some _ => []
  | None => [SSL_new (Ssl.m_context (m_ssl obj))]
  end.

Definition cipher_events (e : Engine) : list Event :=
  match ret_SSL_CIPHER_description e with
  | Some (Some cipherVersion) => [LOG CLOG_INFO "%s" [arg_str cipherVersion]]
  | _ => []
  end.

(** Events that only report: log lines, the engine's error queue, the
    socket error query and the notifications of the event queue. *)
Definition is_report (ev : Event) : bool :=
  match ev with
  | LOG _ _ _ | ERR_get_error | throwErrorOnSocket | sendEvent _ => true
  | _ => false
  end.

(** Events of the verification of the peer: the digest and the trust-store
    file. *)
Definition is_verification (ev : Event) : bool :=
  match ev with
  | X509_digest _ | ifstream_open_file _ | ifstream_close
  | X509_NAME_oneline _ | X509_free _ => true
  | _ => false
  end.

(** Creation and release of the engine's handles. *)
Definition is_lifecycle (ev : Event) : bool :=
  match ev with
  | SSL_CTX_new _ | SSL_new _ | SSL_free _ | SSL_CTX_free _ => true
  | _ => false
  end.

Definition is_notification (ev : Event) : bool :=
  match ev with
  | sendEvent _ => true
  | _ => false
  end.

(** Whether [verifyCertFingerprint] accepts the peer the engine shows, and
    whether the peer shows a certificate at all. *)
Definition verifies (e : Engine) : bool :=
  negb (fst (ret_X509_digest e (ret_SSL_get_peer_certificate e)) <=? 0)
  && trusted (files e (trustedServersFilename e))
       (canonicalForm (snd (ret_X509_digest e (ret_SSL_get_peer_certificate e)))).

Definition has_certificate (e : Engine) : bool :=
  match ret_SSL_get_peer_certificate e with
  | Some _ => true
  | None => false
  end.

(** ** Loading the certificate (server side) *)

(** What the engine answers to the three calls of [loadCertificates], and
    the calls themselves, which the function hands back in the order it
    made them next to its result. *)
Record CertificateAnswers := mk_CertificateAnswers {
  ret_SSL_CTX_use_certificate_file : Z;
  ret_SSL_CTX_use_PrivateKey_file : Z;
  ret_SSL_CTX_check_private_key : Z
}.

Inductive CertificateCall :=
| SSL_CTX_use_certificate_file (ctx : option SSL_CTX) (filename : String)
| SSL_CTX_use_PrivateKey_file (ctx : option SSL_CTX) (filename : String)
| SSL_CTX_check_private_key (ctx : option SSL_CTX).

Definition msg (text : String.string) : option String :=
  Some (String.list_ascii_of_string text).

Arguments msg text%_string.

(** [SecureSocket::loadCertificates].  The file is probed by opening it:
    [file.good()] holds exactly when it opened. *)
Definition loadCertificates (e : Engine) (k : CertificateAnswers)
    (filename : String) : M (bool * list CertificateCall) :=
  if String_empty filename then
    call showError e (msg "ssl certificate is not specified") ;;
    ret (false, [])
  else
    call emit (ifstream_open_file filename) ;;
    let exist := good (ifstream_open (stored (files e filename))) in
    call emit ifstream_close ;;
    if negb exist then
      call showError e
             (Some (String.list_ascii_of_string "ssl certificate doesn't exist: "
                      ++ filename)) ;;
      ret (false, [])
    else
      do ctx <- get_m_context ;;
      let calls := [SSL_CTX_use_certificate_file ctx filename] in
      let r := ret_SSL_CTX_use_certificate_file k in
      if r <=? 0 then
        call showError e (msg "could not use ssl certificate") ;;
        ret (false, calls)
      else
        let calls := calls ++ [SSL_CTX_use_PrivateKey_file ctx filename] in
        let r := ret_SSL_CTX_use_PrivateKey_file k in
        if r <=? 0 then
          call showError e (msg "could not use ssl private key") ;;
          ret (false, calls)
        else
          let calls := calls ++ [SSL_CTX_check_private_key ctx] in
          let r := ret_SSL_CTX_check_private_key k in
          if r =? 0 then
            call showError e (msg "could not verify ssl private key") ;;
            ret (false, calls)
          else ret (true, calls).

(** A certificate file, and answers of an engine for which it loads. *)
Definition certificate_path : String := String.list_ascii_of_string "/etc/synergy.pem".

Definition good_answers : CertificateAnswers := mk_CertificateAnswers 1 1 1.

(** An engine that cannot create a context, nor a connection on the null
    context. *)
Definition no_context : Engine :=
  {| ret_SSL_CTX_new := None;
     ret_SSL_new := None;
     ret_SSL_connect := -1;
     ret_SSL_accept := -1;
     ret_SSL_read := -1;
     ret_SSL_write := -1;
     ret_SSL_get_error := fun _ => SSL_ERROR_SSL;
     ret_ERR_peek_error := 1;
     ret_ERR_get_error := 1;
     ret_ERR_error_string := String.list_ascii_of_string "error:00000001:lib(0)";
     ret_SSL_get_peer_certificate := None;
     ret_X509_digest := sha1_digest;
     ret_SSL_CIPHER_description := None;
     ret_throwErrorOnSocket := None;
     ret_getProfileDirectory := String.list_ascii_of_string "/home/user/.synergy";
     files := fun _ => None |}.

(** * Properties *)

(** ** Formatting a fingerprint *)

Lemma uppercase_toHex_char (c : ascii) :
  map toupper [hexDigit (N_of_ascii c / 16); hexDigit (N_of_ascii c mod 16)]
  = hexGroup c.
Proof.
  destruct c as [[] [] [] [] [] [] [] []]; vm_compute; reflexivity.
Qed.

Lemma uppercase_toHex (digest : String) :
  uppercase (toHex digest 2) = concat (map hexGroup digest).
Proof.
  unfold uppercase, toHex.
  induction digest as [|c digest IH]; [reflexivity|].
  cbn [flat_map map concat].
  change (map toupper
            ([hexDigit (N_of_ascii c / 16); hexDigit (N_of_ascii c mod 16)]
               ++ flat_map (fun c0 => [hexDigit (N_of_ascii c0 / 16);
                                       hexDigit (N_of_ascii c0 mod 16)]) digest)
          = hexGroup c ++ concat (map hexGroup digest)).
  rewrite map_app, uppercase_toHex_char, IH. reflexivity.
Qed.

Lemma length_concat_groups (groups : list String) :
  Forall (fun g => length g = 2%nat) groups ->
  length (concat groups) = (2 * length groups)%nat.
Proof.
  induction 1 as [|g groups Hg _ IH]; [reflexivity|].
  cbn [concat]. rewrite length_app, Hg, IH. cbn [length]. lia.
Qed.

Lemma hexGroups_length (digest : String) :
  Forall (fun g => length g = 2%nat) (map hexGroup digest).
Proof.
  apply List.Forall_forall. intros g Hg. apply in_map_iff in Hg as (c & <- & _).
  reflexivity.
Qed.

(** The invariant of the separator loop: before iteration [i] the string is
    a prefix [p] of [i - 1] finished three-character groups, the group [g]
    whose colon is due, and the groups not yet reached. *)
Lemma insertSeparators_groups (rest : list String) :
  forall (p g : String) (i : nat),
    length p = (3 * (i - 1))%nat -> (1 <= i)%nat ->
    length g = 2%nat ->
    Forall (fun x => length x = 2%nat) rest ->
    insertSeparators (length rest) i (p ++ g ++ concat rest)
    = Some (p ++ joinWith colon (g :: rest)).
Proof.
  induction rest as [|g' rest IH]; intros p g i Hp Hi Hg Hrest.
  - cbn. rewrite app_nil_r. reflexivity.
  - inversion Hrest as [|? ? Hg' Hrest']; subst.
    cbn [length insertSeparators concat].
    unfold String_insert.
    assert (Hpos : (i * 3 - 1)%nat = length (p ++ g))
      by (rewrite length_app; lia).
    rewrite Hpos.
    replace (p ++ g ++ g' ++ concat rest) with ((p ++ g) ++ g' ++ concat rest)
      by (rewrite <- app_assoc; reflexivity).
    assert (Hle : (length (p ++ g) <=? length ((p ++ g) ++ g' ++ concat rest))%nat = true)
      by (apply Nat.leb_le; rewrite (length_app (p ++ g)); lia).
    rewrite Hle, take_app_length, drop_app_length.
    replace ((p ++ g) ++ [colon] ++ g' ++ concat rest)
      with ((p ++ g ++ [colon]) ++ g' ++ concat rest)
      by (rewrite <- !app_assoc; reflexivity).
    rewrite IH; try assumption; try lia.
    + f_equal. rewrite <- !app_assoc. reflexivity.
    + rewrite !length_app, Hg. cbn [length]. lia.
Qed.

(** Formatting never throws, on a digest of any length, and yields the
    canonical form. *)
Lemma formatFingerprint_canonicalForm (digest : String) :
  formatFingerprint digest true true = Some (canonicalForm digest).
Proof.
  unfold formatFingerprint, canonicalForm.
  rewrite uppercase_toHex.
  pose proof (hexGroups_length digest) as Hlen.
  rewrite (length_concat_groups _ Hlen), length_map.
  replace (2 * length digest / 2)%nat with (length digest)
    by (rewrite Nat.mul_comm, Nat.div_mul; lia).
  destruct digest as [|c digest]; [reflexivity|].
  cbn [map concat length] in *.
  inversion Hlen as [|? ? Hc Hrest]; subst.
  replace (S (length digest) - 1)%nat with (length (map hexGroup digest))
    by (rewrite length_map; lia).
  apply (insertSeparators_groups (map hexGroup digest) [] (hexGroup c) 1);
    auto.
Qed.

Lemma length_joinWith (sep : ascii) (groups : list String) :
  Forall (fun g => length g = 2%nat) groups ->
  length (joinWith sep groups) = (3 * length groups - 1)%nat.
Proof.
  induction 1 as [|g groups Hg Hrest IH]; [reflexivity|].
  destruct groups as [|g' groups].
  - cbn. lia.
  - change (joinWith sep (g :: g' :: groups))
      with (g ++ sep :: joinWith sep (g' :: groups)).
    rewrite length_app. cbn [length] in *. rewrite IH, Hg. lia.
Qed.

Lemma upperHexDigit_in (n : N) : In (upperHexDigit n) upperHexDigits.
Proof.
  unfold upperHexDigit.
  destruct (Nat.lt_ge_cases (N.to_nat n) (length upperHexDigits)) as [Hlt|Hge].
  - apply nth_In, Hlt.
  - rewrite nth_overflow by exact Hge. cbn. auto.
Qed.

Lemma length_canonicalForm (digest : String) :
  length (canonicalForm digest) = (3 * length digest - 1)%nat.
Proof.
  unfold canonicalForm.
  rewrite length_joinWith by apply hexGroups_length.
  rewrite length_map. reflexivity.
Qed.

(** C7: every raw 20-byte digest is formatted, without an exception, into
    its canonical form: the upper-case hexadecimal groups of its bytes, two
    characters each, twenty of them, joined by colons, 59 characters in
    all. *)
Theorem formatFingerprint_digest20 (digest : String) :
  length digest = 20%nat ->
  formatFingerprint digest true true = Some (joinWith colon (map hexGroup digest))
  /\ length (map hexGroup digest) = 20%nat
  /\ Forall (fun g => length g = 2%nat /\ Forall (fun c => In c upperHexDigits) g)
            (map hexGroup digest)
  /\ length (joinWith colon (map hexGroup digest)) = 59%nat.
Proof.
  intros Hlen. split; [apply formatFingerprint_canonicalForm|].
  split; [rewrite length_map; exact Hlen|]. split.
  - apply List.Forall_forall. intros g Hg. apply in_map_iff in Hg as (c & <- & _).
    split; [reflexivity|].
    unfold hexGroup. repeat (constructor; [apply upperHexDigit_in|]). constructor.
  - fold (canonicalForm digest). rewrite length_canonicalForm, Hlen. reflexivity.
Qed.

(** ** The trust store *)

Lemma String_compare_eq (a b : String) : String_compare a b = 0 <-> a = b.
Proof.
  revert b. induction a as [|x a IH]; intros [|y b]; cbn; try (split; discriminate).
  - tauto.
  - destruct (N.ltb_spec (N_of_ascii x) (N_of_ascii y)) as [Hxy|Hxy].
    + split; [discriminate|]. intros [= -> _]. lia.
    + destruct (N.ltb_spec (N_of_ascii y) (N_of_ascii x)) as [Hyx|Hyx].
      * split; [discriminate|]. intros [= -> _]. lia.
      * assert (x = y) as ->.
        { rewrite <- (ascii_N_embedding x), <- (ascii_N_embedding y).
          f_equal. lia. }
        rewrite IH. split; [intros ->; reflexivity|intros [= ->]; reflexivity].
Qed.

Lemma grants_spec (fingerprint line : String) :
  grants fingerprint line = true <-> line <> [] /\ line = fingerprint.
Proof.
  unfold grants. rewrite andb_true_iff, Z.eqb_eq, String_compare_eq.
  destruct line; cbn; intuition congruence.
Qed.

Lemma lines_nonempty (s : String) : lines s <> [].
Proof.
  destruct s as [|c s]; cbn; [discriminate|].
  destruct (Ascii.eqb c newline); [discriminate|].
  destruct (lines s); discriminate.
Qed.

(** What [read_line] extracts is the first line; what it leaves holds the
    others. *)
Lemma read_line_lines (s : String) :
  match read_line s with
  | (l, Some rest) => lines s = l :: lines rest /\ (length rest < length s)%nat
  | (l, None) => lines s = [l]
  end.
Proof.
  induction s as [|c s IH]; cbn; [reflexivity|].
  destruct (Ascii.eqb c newline).
  - split; [reflexivity|lia].
  - destruct (read_line s) as [l [rest|]].
    + destruct IH as [-> Hlt]. split; [reflexivity|lia].
    + rewrite IH. reflexivity.
Qed.

(** On a file that opened, the scan ends within one iteration more than
    the file has characters and finds exactly the lines that grant trust. *)
Lemma scanTrustedServers_lines (fuel : nat) :
  forall (s fileLine fingerprint : String),
    (length s < fuel)%nat ->
    scanTrustedServers fuel (ifstream_open (holds s)) fileLine fingerprint
    = Some (existsb (grants fingerprint) (lines s)).
Proof.
  induction fuel as [|fuel IH]; intros s fileLine fingerprint Hfuel; [lia|].
  cbn [ifstream_open scanTrustedServers eofbit is_open negb andb].
  unfold getline.
  cbn [good eofbit failbit badbit read_error negb andb rdbuf is_open].
  pose proof (read_line_lines s) as Hs.
  destruct (read_line s) as [l [rest|]].
  - destruct Hs as [-> Hlt]. cbn [existsb].
    fold (grants fingerprint l).
    destruct (grants fingerprint l); [reflexivity|].
    apply IH. lia.
  - rewrite Hs. cbn [existsb]. fold (grants fingerprint l).
    destruct (grants fingerprint l); [reflexivity|].
    destruct fuel; reflexivity.
Qed.

Lemma lookupTrustedServers_present (content fingerprint : String) :
  lookupTrustedServers (Some content) fingerprint
  = Some (existsb (grants fingerprint) (lines content)).
Proof.
  unfold lookupTrustedServers, lookupStored. cbn [stored ifstream_open rdbuf].
  apply (scanTrustedServers_lines (S (length content))). lia.
Qed.

Lemma lookupTrustedServers_absent (fingerprint : String) :
  lookupTrustedServers None fingerprint = Some false.
Proof. reflexivity. Qed.

(** A file that does not open ends the scan before its first iteration,
    whatever the number of iterations allowed. *)
Lemma scanTrustedServers_cannot_open (fuel : nat) (fingerprint : String) :
  scanTrustedServers fuel (ifstream_open cannot_open) [] fingerprint = Some false.
Proof. destruct fuel; reflexivity. Qed.

(** An open stream that has not reached the end of its file and whose next
    read fails, or has failed, keeps the scan going: with a current line
    that does not grant trust, no number of iterations ends the loop. *)
Lemma scanTrustedServers_spins (fuel : nat) :
  forall (file : ifstream) (fileLine fingerprint : String),
    is_open file = true ->
    eofbit file = false ->
    (good file = true -> read_error file = true) ->
    grants fingerprint fileLine = false ->
    scanTrustedServers fuel file fileLine fingerprint = None.
Proof.
  induction fuel as [|fuel IH];
    intros file fileLine fingerprint Hopen Heof Herr Hline;
    cbn [scanTrustedServers]; rewrite Hopen, Heof; cbn [negb andb];
    [reflexivity|].
  unfold getline. destruct (good file) eqn:Hgood.
  - rewrite (Herr eq_refl). cbn [String_empty negb andb].
    apply IH; [exact Hopen|reflexivity|discriminate|reflexivity].
  - fold (grants fingerprint fileLine). rewrite Hline.
    apply IH; [exact Hopen|exact Heof| |exact Hline].
    unfold good. cbn [eofbit failbit badbit negb].
    rewrite andb_false_r. discriminate.
Qed.

Lemma scanTrustedServers_cannot_read (fuel : nat) (fingerprint : String) :
  scanTrustedServers fuel (ifstream_open cannot_read) [] fingerprint = None.
Proof. apply scanTrustedServers_spins; reflexivity. Qed.

Lemma lookupStored_holds (text fingerprint : String) :
  lookupStored (holds text) fingerprint
  = Some (existsb (grants fingerprint) (lines text)).
Proof. apply (lookupTrustedServers_present text fingerprint). Qed.

(** What [lookupStored] answers is what the loop does: an answer is the
    answer of every run that is allowed enough iterations, and [None] is a
    loop that no number of iterations ends. *)
Lemma lookupStored_returns (store : Stored) (fingerprint : String) :
  match lookupStored store fingerprint with
  | Some isValid =>
      forall fuel, (length (rdbuf (ifstream_open store)) < fuel)%nat ->
                   scanTrustedServers fuel (ifstream_open store) [] fingerprint
                   = Some isValid
  | None =>
      forall fuel, scanTrustedServers fuel (ifstream_open store) [] fingerprint = None
  end.
Proof.
  destruct store as [|text|].
  - intros fuel _. apply scanTrustedServers_cannot_open.
  - rewrite lookupStored_holds. intros fuel Hfuel.
    apply scanTrustedServers_lines. exact Hfuel.
  - intros fuel. apply scanTrustedServers_cannot_read.
Qed.

(** On a file that does not open or is read to its end the lookup comes
    back with an answer. *)
Lemma lookupTrustedServers_total (content : option String) (fingerprint : String) :
  exists isValid, lookupTrustedServers content fingerprint = Some isValid.
Proof.
  destruct content as [content|].
  - rewrite lookupTrustedServers_present. eauto.
  - rewrite lookupTrustedServers_absent. eauto.
Qed.

Lemma canonical_nonempty (fingerprint : String) :
  canonical fingerprint -> fingerprint <> [].
Proof.
  intros (digest & Hlen & Hfmt) ->.
  rewrite formatFingerprint_canonicalForm in Hfmt. injection Hfmt as Heq.
  apply (f_equal length) in Heq.
  rewrite length_canonicalForm, Hlen in Heq. discriminate Heq.
Qed.

(** C9: round trip of the trust store.  For a canonical fingerprint, a file
    holding a line equal to it answers true, and a file all of whose lines
    differ from it answers false. *)
Theorem lookupTrustedServers_round_trip (content fingerprint : String) :
  canonical fingerprint ->
  (In fingerprint (lines content) ->
   lookupTrustedServers (Some content) fingerprint = Some true)
  /\ ((forall line, In line (lines content) -> line <> fingerprint) ->
      lookupTrustedServers (Some content) fingerprint = Some false).
Proof.
  intros Hcanon. rewrite lookupTrustedServers_present. split.
  - intros Hin. f_equal. apply existsb_exists. exists fingerprint.
    split; [exact Hin|]. apply grants_spec.
    split; [apply canonical_nonempty, Hcanon|reflexivity].
  - intros Hdiff. f_equal. apply not_true_is_false. intros Hex.
    apply existsb_exists in Hex as (line & Hin & Hgr).
    apply grants_spec in Hgr as [_ ->]. exact (Hdiff _ Hin eq_refl).
Qed.

(** C10: blank lines never grant trust.  The scan answers true only through
    a line that is not empty, so the empty fingerprint is never trusted,
    whatever the file holds and whether or not it exists. *)
Theorem lookupTrustedServers_blank_lines (content : option String) (fileText fingerprint : String) :
  lookupTrustedServers content [] = Some false
  /\ lookupTrustedServers (Some fileText) fingerprint
     = Some (existsb (fun line => negb (String_empty line)
                                  && (String_compare line fingerprint =? 0))
                     (lines fileText)).
Proof.
  split; [|apply lookupTrustedServers_present].
  destruct content as [text|]; [|reflexivity].
  rewrite lookupTrustedServers_present. f_equal.
  apply not_true_is_false. intros Hex.
  apply existsb_exists in Hex as (line & _ & Hgr).
  apply grants_spec in Hgr as [Hne ->]. exact (Hne eq_refl).
Qed.

Lemma lookupTrustedServers_trusted (content : option String) (fingerprint : String) :
  lookupTrustedServers content fingerprint = Some (trusted content fingerprint).
Proof.
  destruct content; [apply lookupTrustedServers_present|reflexivity].
Qed.

(** ** Running the member functions *)

Lemma logged_logged (st : State) (evs1 evs2 : list Event) :
  logged (logged st evs1) evs2 = logged st (evs1 ++ evs2).
Proof. unfold logged. cbn. rewrite app_assoc. reflexivity. Qed.

Lemma emit_logged (ev : Event) (st : State) :
  emit ev st = Some (tt, logged st [ev]).
Proof. reflexivity. Qed.

(** [verifyCertFingerprint_on] in one step: it hands the peer certificate
    to the digest as it got it from the engine, null or not; it returns
    unless the scan of the store does not end, and it leaves the members and
    the statics alone. *)
Lemma verifyCertFingerprint_on_run (e : Engine) (store : Stored) (st : State) :
  let cert := ret_SSL_get_peer_certificate e in
  let fingerprint := canonicalForm (snd (ret_X509_digest e cert)) in
  verifyCertFingerprint_on e store st
  = if fst (ret_X509_digest e cert) <=? 0
    then Some (false,
               logged st [X509_digest cert;
                          LOG CLOG_ERR "failed to calculate fingerprint, digest result: %d"
                            [arg_int (fst (ret_X509_digest e cert))]])
    else match lookupStored store fingerprint with
         | Some isValid =>
             Some (isValid,
                   logged st [X509_digest cert;
                              LOG CLOG_INFO "server fingerprint: %s" [arg_str fingerprint];
                              ifstream_open_file (trustedServersFilename e);
                              ifstream_close])
         | None => None
         end.
Proof.
  cbv zeta. unfold verifyCertFingerprint_on.
  destruct (ret_X509_digest e (ret_SSL_get_peer_certificate e)) as [d bytes].
  cbn [fst snd]. unfold bind at 1. rewrite emit_logged.
  destruct (d <=? 0).
  - unfold bind, ret. rewrite emit_logged, logged_logged. reflexivity.
  - rewrite formatFingerprint_canonicalForm.
    destruct (lookupStored store (canonicalForm bytes)).
    + unfold bind, ret. rewrite !emit_logged, !logged_logged. reflexivity.
    + reflexivity.
Qed.

(** [verifyCertFingerprint] in one step: on the file system of the engine
    it returns, it leaves the members and the statics alone, and it hands
    the peer certificate to the digest as it got it from the engine, null or
    not. *)
Lemma verifyCertFingerprint_run (e : Engine) (st : State) :
  let cert := ret_SSL_get_peer_certificate e in
  verifyCertFingerprint e st
  = if fst (ret_X509_digest e cert) <=? 0
    then Some (false,
               logged st [X509_digest cert;
                          LOG CLOG_ERR "failed to calculate fingerprint, digest result: %d"
                            [arg_int (fst (ret_X509_digest e cert))]])
    else Some (trusted (files e (trustedServersFilename e))
                       (canonicalForm (snd (ret_X509_digest e cert))),
               logged st [X509_digest cert;
                          LOG CLOG_INFO "server fingerprint: %s"
                            [arg_str (canonicalForm (snd (ret_X509_digest e cert)))];
                          ifstream_open_file (trustedServersFilename e);
                          ifstream_close]).
Proof.
  cbv zeta. unfold verifyCertFingerprint.
  rewrite verifyCertFingerprint_on_run. cbv zeta.
  fold (lookupTrustedServers (files e (trustedServersFilename e))
          (canonicalForm (snd (ret_X509_digest e (ret_SSL_get_peer_certificate e))))).
  rewrite lookupTrustedServers_trusted. reflexivity.
Qed.

Ltac run_M :=
  cbv beta iota zeta delta
    [bind ret emit gets set_this when load store diverge
     isFatal set_isFatal maxRetry isSecureReady set_m_secureReady
     set_m_ssl set_m_context get_m_ssl get_m_context
     disconnect getError showError logCipher];
  cbn [statics this trace m_secureReady m_fatal m_maxRetry m_ssl
       Ssl.m_context Ssl.m_ssl fst snd].

Lemma get_set_retry (r : RetryRef) (v : Z) (s : Statics) :
  get_retry r (set_retry r v s) = v.
Proof. destruct r; reflexivity. Qed.

Lemma set_set_retry (r : RetryRef) (v v' : Z) (s : Statics) :
  set_retry r v (set_retry r v' s) = set_retry r v s.
Proof. destruct r; reflexivity. Qed.

Lemma set_get_retry (r : RetryRef) (s : Statics) :
  set_retry r (get_retry r s) s = s.
Proof. destruct r, s; reflexivity. Qed.

Arguments wrap32 : simpl never.

Ltac run_step :=
  run_M; rewrite ?get_set_retry, ?set_set_retry;
  cbn [orb negb andb app String_empty]; run_M; cbn [orb negb andb app String_empty].

Ltac split_on b := destruct b eqn:?; run_step.

(** The end of a branch of [checkResult]: compare with the bound, look at
    the flag, run the teardown if it is set, and read the events off. *)
Ltac checkResult_leaf e limit fatal0 :=
  match goal with |- context [?x >? limit] => split_on (x >? limit) end;
  split_on fatal0;
  try (split_on (ret_ERR_get_error e =? 0);
       try split_on (String_empty (ret_ERR_error_string e)));
  rewrite <- ?app_assoc; cbn [app];
  first [ eexists; split; [reflexivity|]
        | exists []; rewrite app_nil_r; split; [reflexivity|] ];
  (split;
   [ intros Hfatal; first
       [ discriminate Hfatal
       | exists []; reflexivity
       | eexists [_]; reflexivity
       | eexists [_; _]; reflexivity
       | eexists [_; _; _]; reflexivity
       | eexists [_; _; _; _]; reflexivity ]
   | repeat constructor ]).

(** One classification pass, in full: it always returns; it touches no
    member but [m_fatal] and no static but its [retry]; the session is Fatal
    afterwards exactly when it was before, the result is not a success or a
    want-signal, or the updated counter exceeds the bound; a Fatal pass
    ends with the counter at zero and the teardown events. *)
Lemma checkResult_run (e : Engine) (status : Z) (retry : RetryRef) (st : State) :
  let errorCode := ret_SSL_get_error e status in
  let n := counted errorCode (get_retry retry (statics st)) in
  let fatal := m_fatal (this st)
               || negb ((errorCode =? SSL_ERROR_NONE) || is_want errorCode)
               || (n >? m_maxRetry (this st)) in
  exists events,
    checkResult e status retry st
    = Some (tt, mk_State (set_retry retry (if fatal then 0 else n) (statics st))
                         (mk_SecureSocket (m_secureReady (this st)) fatal
                            (m_maxRetry (this st)) (m_ssl (this st)))
                         (trace st ++ events))
    /\ (fatal = true -> exists before, events = before ++ teardown_events e)
    /\ Forall (fun ev => is_engine_call ev = false) events.
Proof.
  cbv zeta. unfold checkResult, counted, teardown_events, diagnostics.
  destruct st as [sts [ready fatal0 limit ssl] tr].
  generalize (ret_SSL_get_error e status). intros c.
  run_M.
  split_on (c =? SSL_ERROR_NONE).
  { checkResult_leaf e limit fatal0. }
  split_on (c =? SSL_ERROR_ZERO_RETURN).
  { apply Z.eqb_eq in Heqb0. subst c.
    change (is_want SSL_ERROR_ZERO_RETURN) with false. run_step.
    checkResult_leaf e limit fatal0. }
  split_on (is_want c).
  { checkResult_leaf e limit fatal0. }
  split_on (c =? SSL_ERROR_SYSCALL).
  { split_on (ret_ERR_peek_error e =? 0);
      [split_on (status =? 0);
       [|split_on (status =? -1);
         [destruct (ret_throwErrorOnSocket e); run_step|]]|].
    all: checkResult_leaf e limit fatal0. }
  split_on (c =? SSL_ERROR_SSL).
  { checkResult_leaf e limit fatal0. }
  checkResult_leaf e limit fatal0.
Qed.

(** C3, the claim as it reads: a counter above the bound on entry forces
    Fatal even on a success.  It does not: a success resets the counter
    before the bound is looked at. *)
Lemma checkResult_success_resets_before_bound :
  ~ (forall (e : Engine) (status : Z) (retry : RetryRef) (st st' : State),
        get_retry retry (statics st) > m_maxRetry (this st) ->
        ret_SSL_get_error e status = SSL_ERROR_NONE ->
        checkResult e status retry st = Some (tt, st') ->
        m_fatal (this st') = true).
Proof.
  intros Hclaim.
  assert (Hfatal : m_fatal (this (mk_State fresh_statics over_bound_socket [])) = true).
  { apply (Hclaim (negotiated None) 1 retry_of_secureRead
             (mk_State (mk_Statics 4 0 0 0) over_bound_socket [])).
    - reflexivity.
    - reflexivity.
    - reflexivity. }
  discriminate Hfatal.
Qed.

(** C3, amended: every classification pass returns.  The bound is compared
    with the counter as the pass has just updated it (reset by a success,
    incremented by a want-signal): if that exceeds the bound the session is
    Fatal.  A success under a non-negative bound therefore leaves the Fatal
    flag as it was, however large the counter was on entry.  Whenever the
    pass ends Fatal the counter is zero, the engine's error queue has been
    read and logged, and the three disconnect events have been sent. *)
Theorem checkResult_bound_and_fatal (e : Engine) (status : Z) (retry : RetryRef)
    (st : State) :
  exists st',
    checkResult e status retry st = Some (tt, st')
    /\ (counted (ret_SSL_get_error e status) (get_retry retry (statics st))
          > m_maxRetry (this st) ->
        m_fatal (this st') = true)
    /\ (ret_SSL_get_error e status = SSL_ERROR_NONE ->
        0 <= m_maxRetry (this st) ->
        m_fatal (this st') = m_fatal (this st))
    /\ (m_fatal (this st') = true ->
        get_retry retry (statics st') = 0
        /\ exists before,
             trace st' = trace st ++ before ++ ERR_get_error :: diagnostics e
                           ++ [sendEvent stopRetry; sendEvent disconnected;
                               sendEvent inputShutdown]).
Proof.
  pose proof (checkResult_run e status retry st) as Hrun. cbv zeta in Hrun.
  destruct Hrun as (events & Hrun & Htear & _).
  eexists. split; [exact Hrun|]. cbn [this statics trace m_fatal].
  split; [|split].
  - intros Hover. apply Z.gtb_gt in Hover. rewrite Hover.
    apply orb_true_r.
  - intros Hnone Hbound. rewrite Hnone. unfold counted. cbn [Z.eqb SSL_ERROR_NONE orb negb].
    replace (0 >? m_maxRetry (this st)) with false
      by (symmetry; apply not_true_is_false; rewrite Z.gtb_gt; lia).
    rewrite !orb_false_r. reflexivity.
  - intros Hfatal. rewrite Hfatal in *. rewrite get_set_retry.
    split; [reflexivity|].
    destruct (Htear eq_refl) as [before ->]. exists before. reflexivity.
Qed.

Lemma checkResult_bound_and_fatal_witness :
  counted (ret_SSL_get_error want_read (-1)) kMaxRetryCount
    > m_maxRetry connected
  /\ exists st',
       checkResult want_read (-1) retry_of_secureRead
         (mk_State (mk_Statics kMaxRetryCount 0 0 0) connected []) = Some (tt, st')
       /\ m_fatal (this st') = true
       /\ secureRead_retry (statics st') = 0.
Proof.
  split; [reflexivity|].
  destruct (checkResult_bound_and_fatal want_read (-1) retry_of_secureRead
              (mk_State (mk_Statics kMaxRetryCount 0 0 0) connected []))
    as (st' & Hrun & Hover & _ & Hfatal).
  exists st'. split; [exact Hrun|].
  split; [exact (Hover eq_refl)|].
  exact (proj1 (Hfatal (Hover eq_refl))).
Defined.

(** ** Close and destruction *)

Lemma close_run (st : State) :
  close st
  = Some (tt, mk_State (statics st)
                (mk_SecureSocket (m_secureReady (this st)) true
                   (m_maxRetry (this st)) (m_ssl (this st)))
                (trace st ++ [SSL_shutdown (Ssl.m_ssl (m_ssl (this st)));
                              TCPSocket_close])).
Proof.
  unfold close. run_M. rewrite <- app_assoc. reflexivity.
Qed.

(** The destructor shuts the connection down before it frees it, frees it
    before the context, skips a handle that is null, and leaves both null. *)
Lemma destructor_run (st : State) :
  destructor st
  = Some (tt, mk_State (statics st)
                (mk_SecureSocket (m_secureReady (this st)) true
                   (m_maxRetry (this st)) (Ssl.mk None None))
                (trace st ++ release_events (m_ssl (this st))
                   ++ [ARCH_sleep 1; delete_m_ssl])).
Proof.
  unfold destructor, release_events.
  destruct st as [sts [ready fatal limit [[ctx|] [ssl|]]] tr]; run_M;
    rewrite <- ?app_assoc; reflexivity.
Qed.

(** Both handles are null when the destructor reaches [delete m_ssl]:
    nothing is left to release. *)
Lemma release_events_released (st st' : State) :
  destructor st = Some (tt, st') -> release_events (m_ssl (this st')) = [].
Proof.
  rewrite destructor_run. intros [= <-]. reflexivity.
Qed.

(** [initSsl] on a new socket, with an engine that hands out a context. *)
Lemma initSsl_initialised :
  exists events,
    initSsl want_read false (mk_State fresh_statics SecureSocket_new [])
    = Some (tt, mk_State fresh_statics initialised events).
Proof. eexists. reflexivity. Qed.

(** C5: [close] on a socket without a connection handle.  The destructor
    guards its shutdown and its free of the connection with a null test and
    asks the engine for nothing but the release of the context, if there is
    one; [close] hands the null handle to [SSL_shutdown]. *)
Theorem close_shuts_down_null_handle (st : State) :
  Ssl.m_ssl (m_ssl (this st)) = None ->
  (exists st', close st = Some (tt, st')
               /\ trace st' = trace st ++ [SSL_shutdown None; TCPSocket_close])
  /\ (exists st', destructor st = Some (tt, st')
                  /\ trace st'
                     = trace st
                         ++ match Ssl.m_context (m_ssl (this st)) with
                            | Some ctx => [SSL_CTX_free (Some ctx)]
                            | None => []
                            end
                         ++ [ARCH_sleep 1; delete_m_ssl]).
Proof.
  intros Hssl. split.
  - rewrite close_run, Hssl. eexists. split; reflexivity.
  - rewrite destructor_run. unfold release_events. rewrite Hssl.
    eexists. split; [reflexivity|]. cbn [trace app].
    destruct (Ssl.m_context (m_ssl (this st))); reflexivity.
Qed.

Lemma close_shuts_down_null_handle_witness :
  Ssl.m_ssl (m_ssl initialised) = None
  /\ exists st', close (mk_State fresh_statics initialised []) = Some (tt, st')
                 /\ trace st' = [SSL_shutdown None; TCPSocket_close].
Proof.
  split; [reflexivity|].
  exact (proj1 (close_shuts_down_null_handle
                  (mk_State fresh_statics initialised []) eq_refl)).
Defined.

(** ** Reading and writing *)

Lemma secureRead_no_handle (e : Engine) (size read : Z) (st : State) :
  Ssl.m_ssl (m_ssl (this st)) = None ->
  secureRead e size read st = Some ((read, read), st).
Proof.
  intros Hssl. unfold secureRead. run_M. rewrite Hssl. reflexivity.
Qed.

Lemma secureWrite_no_handle (e : Engine) (size wrote : Z) (st : State) :
  Ssl.m_ssl (m_ssl (this st)) = None ->
  secureWrite e size wrote st = Some ((wrote, wrote), st).
Proof.
  intros Hssl. unfold secureWrite. run_M. rewrite Hssl. reflexivity.
Qed.

(** With a connection handle [secureRead] is the engine's read followed by
    one classification pass; what it returns is read off the state the pass
    leaves. *)
Lemma secureRead_handle (e : Engine) (size read : Z) (st : State) (h : SSL) :
  Ssl.m_ssl (m_ssl (this st)) = Some h ->
  exists st',
    checkResult e (ret_SSL_read e) retry_of_secureRead
      (logged st [LOG CLOG_DEBUG2 "reading secure socket" []; SSL_read (Some h) size])
    = Some (tt, st')
    /\ secureRead e size read st
       = Some ((if negb (secureRead_retry (statics st') =? 0) then 0
                else if m_fatal (this st') then -1 else ret_SSL_read e,
                ret_SSL_read e), st').
Proof.
  intros Hssl.
  destruct (checkResult_run e (ret_SSL_read e) retry_of_secureRead
              (logged st [LOG CLOG_DEBUG2 "reading secure socket" []; SSL_read (Some h) size]))
    as (events & Hrun & _).
  match type of Hrun with _ = Some (tt, ?s) => generalize dependent s end.
  intros st' Hrun. exists st'. split; [exact Hrun|].
  unfold secureRead. unfold bind at 1. unfold get_m_ssl, gets. rewrite Hssl.
  unfold bind at 1. rewrite emit_logged. unfold bind at 1.
  rewrite emit_logged, logged_logged. unfold bind at 1. cbn [app].
  rewrite Hrun. clear Hrun. run_M. cbn [get_retry].
  repeat case_match; reflexivity.
Qed.

Lemma secureWrite_handle (e : Engine) (size wrote : Z) (st : State) (h : SSL) :
  Ssl.m_ssl (m_ssl (this st)) = Some h ->
  exists st',
    checkResult e (ret_SSL_write e) retry_of_secureWrite
      (logged st [LOG CLOG_DEBUG2 "writing secure socket:%p" []; SSL_write (Some h) size])
    = Some (tt, st')
    /\ secureWrite e size wrote st
       = Some ((if negb (secureWrite_retry (statics st') =? 0) then 0
                else if m_fatal (this st') then -1 else ret_SSL_write e,
                ret_SSL_write e), st').
Proof.
  intros Hssl.
  destruct (checkResult_run e (ret_SSL_write e) retry_of_secureWrite
              (logged st [LOG CLOG_DEBUG2 "writing secure socket:%p" []; SSL_write (Some h) size]))
    as (events & Hrun & _).
  match type of Hrun with _ = Some (tt, ?s) => generalize dependent s end.
  intros st' Hrun. exists st'. split; [exact Hrun|].
  unfold secureWrite. unfold bind at 1. unfold get_m_ssl, gets. rewrite Hssl.
  unfold bind at 1. rewrite emit_logged. unfold bind at 1.
  rewrite emit_logged, logged_logged. unfold bind at 1. cbn [app].
  rewrite Hrun. clear Hrun. run_M. cbn [get_retry].
  repeat case_match; reflexivity.
Qed.

Lemma checkResult_trace (e : Engine) (status : Z) (retry : RetryRef) (st st' : State) :
  checkResult e status retry st = Some (tt, st') ->
  m_ssl (this st') = m_ssl (this st)
  /\ m_secureReady (this st') = m_secureReady (this st)
  /\ exists events, trace st' = trace st ++ events
                    /\ Forall (fun ev => is_engine_call ev = false) events.
Proof.
  destruct (checkResult_run e status retry st) as (events & -> & _ & Hquiet).
  intros [= <-]. cbn. eauto.
Qed.




(** ** Verifying the peer *)

(** With the trust-store file absent or impossible to open, the membership
    test answers false for every fingerprint, and [verifyCertFingerprint]
    returns false: the missing file is no error and nothing is thrown. *)
Lemma trust_store_absent (e : Engine) (st : State) :
  files e (trustedServersFilename e) = None ->
  (forall fingerprint,
      lookupTrustedServers (files e (trustedServersFilename e)) fingerprint
      = Some false)
  /\ exists st', verifyCertFingerprint e st = Some (false, st').
Proof.
  intros Habsent. split.
  - intros fingerprint. rewrite Habsent. reflexivity.
  - rewrite verifyCertFingerprint_run. cbv zeta. rewrite Habsent. cbn [trusted].
    destruct (_ <=? 0); eauto.
Qed.

Lemma trust_store_absent_witness :
  files (negotiated None) (trustedServersFilename (negotiated None)) = None
  /\ exists st', verifyCertFingerprint (negotiated None)
                   (mk_State fresh_statics handshaking []) = Some (false, st').
Proof.
  split; [reflexivity|].
  exact (proj2 (trust_store_absent (negotiated None)
                  (mk_State fresh_statics handshaking []) eq_refl)).
Defined.

(** C8: the trust store that is absent, and the one that cannot be read.
    With a file that is absent or does not open, the membership test answers
    false for every fingerprint and [verifyCertFingerprint] returns false:
    the missing file is no error and nothing is thrown.  With a file that
    opens and cannot be read, the first [getline] fails and sets [badbit],
    not [eofbit]; the loop tests [eof()] and [is_open()] only, so that no
    number of iterations ends it, and [verifyCertFingerprint] does not
    return false: it does not return at all, as soon as the digest has
    reported a positive result. *)
Theorem trust_store_unreadable (e : Engine) (fingerprint : String) (st : State) :
  lookupStored cannot_open fingerprint = Some false
  /\ (exists st', verifyCertFingerprint_on e cannot_open st = Some (false, st'))
  /\ (forall fuel,
        scanTrustedServers fuel (ifstream_open cannot_read) [] fingerprint = None)
  /\ lookupStored cannot_read fingerprint = None
  /\ (0 < fst (ret_X509_digest e (ret_SSL_get_peer_certificate e)) ->
      verifyCertFingerprint_on e cannot_read st = None).
Proof.
  split; [reflexivity|]. split.
  { rewrite verifyCertFingerprint_on_run. cbv zeta.
    destruct (_ <=? 0); eauto. }
  split; [intros fuel; apply scanTrustedServers_cannot_read|].
  split; [reflexivity|].
  intros Hdigest. rewrite verifyCertFingerprint_on_run. cbv zeta.
  apply Z.leb_gt in Hdigest. rewrite Hdigest. reflexivity.
Qed.

Lemma trust_store_unreadable_witness :
  0 < fst (ret_X509_digest (negotiated None)
             (ret_SSL_get_peer_certificate (negotiated None)))
  /\ verifyCertFingerprint_on (negotiated None) cannot_read
       (mk_State fresh_statics handshaking []) = None.
Proof.
  split; [reflexivity|].
  exact (proj2 (proj2 (proj2 (proj2
           (trust_store_unreadable (negotiated None) sample_fingerprint
              (mk_State fresh_statics handshaking []))))) eq_refl).
Defined.

(** C6: [verifyCertFingerprint] returns false, without touching the trust
    store, when the digest reports a non-positive result.  It does not look
    at the peer certificate first: a null certificate goes to the digest
    like any other, and what the function returns is then up to what the
    digest makes of a null pointer. *)
Theorem verifyCertFingerprint_failures (e : Engine) (st : State) :
  (fst (ret_X509_digest e (ret_SSL_get_peer_certificate e)) <= 0 ->
   verifyCertFingerprint e st
   = Some (false,
           logged st
             [X509_digest (ret_SSL_get_peer_certificate e);
              LOG CLOG_ERR "failed to calculate fingerprint, digest result: %d"
                [arg_int (fst (ret_X509_digest e (ret_SSL_get_peer_certificate e)))]]))
  /\ (ret_SSL_get_peer_certificate e = None ->
      exists after,
        verifyCertFingerprint e st
        = Some (if fst (ret_X509_digest e None) <=? 0 then false
                else trusted (files e (trustedServersFilename e))
                             (canonicalForm (snd (ret_X509_digest e None))),
                logged st (X509_digest None :: after))).
Proof.
  rewrite verifyCertFingerprint_run. cbv zeta. split.
  - intros Hdigest. apply Z.leb_le in Hdigest. rewrite Hdigest. reflexivity.
  - intros ->. destruct (_ <=? 0); eexists; reflexivity.
Qed.

Lemma verifyCertFingerprint_failures_witness :
  ret_SSL_get_peer_certificate (careless (Some sample_fingerprint)) = None
  /\ exists after,
       verifyCertFingerprint (careless (Some sample_fingerprint))
         (mk_State fresh_statics handshaking [])
       = Some (true, logged (mk_State fresh_statics handshaking [])
                       (X509_digest None :: after)).
Proof.
  split; [reflexivity|].
  exact (proj2 (verifyCertFingerprint_failures (careless (Some sample_fingerprint))
                  (mk_State fresh_statics handshaking [])) eq_refl).
Defined.

(** ** The client handshake *)

Lemma is_want_not_none (errorCode : Z) :
  is_want errorCode = true -> (errorCode =? SSL_ERROR_NONE) = false.
Proof.
  unfold is_want. rewrite !orb_true_iff, !Z.eqb_eq, Z.eqb_neq.
  unfold SSL_ERROR_WANT_READ, SSL_ERROR_WANT_WRITE, SSL_ERROR_WANT_CONNECT,
    SSL_ERROR_WANT_ACCEPT, SSL_ERROR_NONE. lia.
Qed.

(** C1: a client handshake step in which the negotiation completes and the
    peer's fingerprint is not in the trust store.  [secureConnect] sends the
    disconnect events and returns -1, but [m_secureReady], set before the
    verification, stays set, and the Fatal flag is never raised:
    [isSecureReady()] answers true afterwards. *)
Theorem secureConnect_untrusted_peer (e : Engine) (fd : Z) (st : State) :
  m_fatal (this st) = false ->
  0 <= m_maxRetry (this st) ->
  ret_SSL_get_error e (ret_SSL_connect e) = SSL_ERROR_NONE ->
  0 < fst (ret_X509_digest e (ret_SSL_get_peer_certificate e)) ->
  trusted (files e (trustedServersFilename e))
    (canonicalForm (snd (ret_X509_digest e (ret_SSL_get_peer_certificate e))))
  = false ->
  exists st',
    secureConnect e fd st = Some (-1, st')
    /\ isSecureReady st' = Some (true, st')
    /\ m_fatal (this st') = false
    /\ exists before,
         trace st' = trace st ++ before
                       ++ [sendEvent stopRetry; sendEvent disconnected;
                           sendEvent inputShutdown].
Proof.
  intros Hfatal Hbound Hnone Hdigest Huntrusted.
  destruct st as [sts [ready fatal limit [ctx ssl]] tr].
  cbn in Hfatal, Hbound. subst fatal.
  unfold secureConnect, createSSL. run_M.
  destruct ssl as [h|]; run_M.
  all: match goal with
       | |- context [checkResult ?e ?s ?r ?st0] =>
           destruct (checkResult_run e s r st0) as (events & Hrun & _ & _)
       end.
  all: rewrite Hrun; clear Hrun.
  all: cbn [statics this trace m_fatal m_maxRetry m_secureReady m_ssl].
  all: rewrite Hnone; unfold counted.
  all: change (SSL_ERROR_NONE =? SSL_ERROR_NONE) with true; cbn [orb negb].
  all: replace (0 >? limit) with false
         by (symmetry; apply not_true_is_false; rewrite Z.gtb_gt; lia).
  all: run_step; change (0 >? 0) with false; run_step.
  all: rewrite verifyCertFingerprint_run; cbv zeta.
  all: replace (fst (ret_X509_digest e (ret_SSL_get_peer_certificate e)) <=? 0)
         with false by (symmetry; apply Z.leb_gt; lia).
  all: rewrite Huntrusted; unfold logged; run_step.
  all: eexists; split; [reflexivity|].
  all: split; [reflexivity|]; split; [reflexivity|].
  all: cbn [trace]; rewrite <- ?app_assoc; cbn [app].
  all: lazymatch goal with
       | |- exists before,
            _ ++ ?x1 :: ?x2 :: ?x3 :: ?x4 :: ?evs ++ [?a; ?b; ?c; ?d; ?f; _; _; _] = _ =>
           exists (x1 :: x2 :: x3 :: x4 :: evs ++ [a; b; c; d; f])
       | |- exists before,
            _ ++ ?x1 :: ?x2 :: ?x3 :: ?evs ++ [?a; ?b; ?c; ?d; ?f; _; _; _] = _ =>
           exists (x1 :: x2 :: x3 :: evs ++ [a; b; c; d; f])
       end.
  all: cbn [app]; rewrite <- app_assoc; reflexivity.
Qed.

Lemma secureConnect_untrusted_peer_witness :
  m_fatal handshaking = false
  /\ 0 <= m_maxRetry handshaking
  /\ exists st',
       secureConnect (negotiated (Some altered_store)) 5
         (mk_State fresh_statics handshaking []) = Some (-1, st')
       /\ isSecureReady st' = Some (true, st').
Proof.
  split; [reflexivity|]. split; [discriminate|].
  destruct (secureConnect_untrusted_peer (negotiated (Some altered_store)) 5
              (mk_State fresh_statics handshaking [])
              eq_refl ltac:(discriminate) eq_refl eq_refl eq_refl)
    as (st' & Hrun & Hready & _).
  exists st'. split; assumption.
Defined.

(** ** Formatting and the trust store on sample data *)

Lemma formatFingerprint_digest20_witness :
  length sample_digest = 20%nat
  /\ formatFingerprint sample_digest true true
     = Some (joinWith colon (map hexGroup sample_digest)).
Proof.
  split; [reflexivity|].
  exact (proj1 (formatFingerprint_digest20 sample_digest eq_refl)).
Defined.

Lemma sample_fingerprint_canonical : canonical sample_fingerprint.
Proof. exists sample_digest. split; reflexivity. Defined.

Lemma lookupTrustedServers_round_trip_witness :
  canonical sample_fingerprint
  /\ lookupTrustedServers (Some (altered_store ++ sample_fingerprint ++ [newline]))
       sample_fingerprint = Some true
  /\ lookupTrustedServers (Some altered_store) sample_fingerprint = Some false.
Proof.
  split; [exact sample_fingerprint_canonical|]. split.
  - apply (lookupTrustedServers_round_trip
             (altered_store ++ sample_fingerprint ++ [newline]) sample_fingerprint
             sample_fingerprint_canonical).
    right. left. reflexivity.
  - apply (lookupTrustedServers_round_trip altered_store sample_fingerprint
             sample_fingerprint_canonical).
    intros line [<-|[<-|[]]]; discriminate.
Defined.

(** ** Several instances *)

Lemma wrap32_small (x : Z) : - 2 ^ 31 <= x < 2 ^ 31 -> wrap32 x = x.
Proof.
  intros Hx. unfold wrap32. rewrite Z.mod_small; lia.
Qed.

Lemma invoke_run {A} (a : nat) (m : M A) (w : World) (obj : SecureSocket)
    (r : A) (st : State) :
  heap w !! a = Some obj ->
  m (mk_State (globals w) obj []) = Some (r, st) ->
  invoke a m w
  = Some (r, mk_World (statics st) (<[a := this st]> (heap w))
                      (history w ++ map (pair a) (trace st))).
Proof.
  intros Hobj Hrun. unfold invoke. rewrite Hobj, Hrun. reflexivity.
Qed.

(** The members are local to an instance: a call on one instance leaves the
    members of every other one alone. *)
Lemma invoke_frame {A} (a b : nat) (m : M A) (w w' : World) (r : A) :
  invoke a m w = Some (r, w') -> a <> b -> heap w' !! b = heap w !! b.
Proof.
  unfold invoke. intros Hrun Hne.
  destruct (heap w !! a) as [obj|]; [|discriminate].
  destruct (m _) as [[r' st]|]; [|discriminate].
  injection Hrun as _ <-. cbn. apply lookup_insert_ne, Hne.
Qed.

(** One read answered with a want-signal on a socket that is not Fatal:
    the static counter of [secureRead] goes up by one, and the socket goes
    Fatal exactly when that exceeds its own bound. *)
Lemma secureRead_want (e : Engine) (size read : Z) (sts : Statics)
    (obj : SecureSocket) (h : SSL) :
  Ssl.m_ssl (m_ssl obj) = Some h ->
  m_fatal obj = false ->
  is_want (ret_SSL_get_error e (ret_SSL_read e)) = true ->
  0 <= secureRead_retry sts < 2 ^ 31 - 1 ->
  exists events,
    secureRead e size read (mk_State sts obj [])
    = if secureRead_retry sts + 1 >? m_maxRetry obj
      then Some ((-1, ret_SSL_read e),
                 mk_State (set_retry retry_of_secureRead 0 sts)
                   (mk_SecureSocket (m_secureReady obj) true (m_maxRetry obj) (m_ssl obj))
                   events)
      else Some ((0, ret_SSL_read e),
                 mk_State (set_retry retry_of_secureRead (secureRead_retry sts + 1) sts)
                   obj events).
Proof.
  intros Hssl Hfatal Hwant Hrange.
  destruct (secureRead_handle e size read (mk_State sts obj []) h Hssl)
    as (st' & Hcheck & ->).
  destruct (checkResult_run e (ret_SSL_read e) retry_of_secureRead
              (logged (mk_State sts obj [])
                 [LOG CLOG_DEBUG2 "reading secure socket" []; SSL_read (Some h) size]))
    as (events & Hrun & _).
  rewrite Hrun in Hcheck. injection Hcheck as <-. clear Hrun.
  cbn [logged statics this trace m_fatal m_maxRetry m_secureReady m_ssl get_retry].
  rewrite Hfatal, Hwant, (is_want_not_none _ Hwant). unfold counted.
  rewrite Hwant, (is_want_not_none _ Hwant). cbn [orb negb].
  rewrite wrap32_small by lia.
  eexists.
  destruct (secureRead_retry sts + 1 >? m_maxRetry obj) eqn:Hover;
    cbn [secureRead_retry set_retry].
  - reflexivity.
  - replace (secureRead_retry sts + 1 =? 0) with false
      by (symmetry; apply Z.eqb_neq; lia).
    destruct obj; cbn in *; subst; reflexivity.
Qed.

(** [n] reads in a row on the instance at [a], each answered with a
    want-signal, while the counter stays within the bound of [a]: the world
    is as before but for the static counter, which has gone up by [n]. *)
Lemma invoke_many_want_reads (e : Engine) (size read : Z) (n : nat) :
  forall (w : World) (a : nat) (obj : SecureSocket) (h : SSL),
    heap w !! a = Some obj ->
    Ssl.m_ssl (m_ssl obj) = Some h ->
    m_fatal obj = false ->
    is_want (ret_SSL_get_error e (ret_SSL_read e)) = true ->
    0 <= secureRead_retry (globals w) ->
    secureRead_retry (globals w) + Z.of_nat n <= m_maxRetry obj ->
    m_maxRetry obj < 2 ^ 31 - 1 ->
    exists w',
      invoke_many n a (secureRead e size read) w = Some w'
      /\ heap w' = heap w
      /\ globals w'
         = set_retry retry_of_secureRead
             (secureRead_retry (globals w) + Z.of_nat n) (globals w).
Proof.
  induction n as [|n IH]; intros w a obj h Hobj Hssl Hfatal Hwant Hlow Hhigh Hmax.
  - exists w. split; [reflexivity|]. split; [reflexivity|].
    rewrite Z.add_0_r.
    symmetry. apply (set_get_retry retry_of_secureRead).
  - cbn [invoke_many].
    destruct (secureRead_want e size read (globals w) obj h Hssl Hfatal Hwant
                ltac:(lia)) as (events & Hrun).
    replace (secureRead_retry (globals w) + 1 >? m_maxRetry obj) with false in Hrun
      by (symmetry; apply not_true_is_false; rewrite Z.gtb_gt; lia).
    rewrite (invoke_run _ _ _ _ _ _ Hobj Hrun).
    cbn [statics this trace].
    rewrite (insert_id _ _ _ Hobj).
    edestruct (IH (mk_World
                     (set_retry retry_of_secureRead
                        (secureRead_retry (globals w) + 1) (globals w))
                     (heap w) (history w ++ map (pair a) events))
                  a obj h) as (w' & Hmany & Hheap & Hglobals);
      cbn [heap globals]; try eassumption.
    + rewrite (get_set_retry retry_of_secureRead). lia.
    + rewrite (get_set_retry retry_of_secureRead). lia.
    + exists w'. split; [exact Hmany|]. split; [exact Hheap|].
      rewrite Hglobals. cbn [globals].
      rewrite (get_set_retry retry_of_secureRead), set_set_retry.
      f_equal. lia.
Qed.

Lemma two_sockets_1 : heap two_sockets !! 1%nat = Some connected.
Proof. unfold two_sockets. cbn [heap]. apply lookup_insert_eq. Qed.

Lemma two_sockets_2 : heap two_sockets !! 2%nat = Some connected.
Proof.
  unfold two_sockets. cbn [heap].
  rewrite lookup_insert_ne by discriminate. apply lookup_insert_eq.
Qed.

(** C2: the retry counter of [secureRead] is a function-level [static],
    one for the whole process.  Two connected sockets with the default
    bound: a read on the second that wants to read again returns 0 and
    leaves it as it was.  But after [kMaxRetryCount] such reads on the
    first socket, none of them Fatal for it and none touching the members of
    the second, the same read on the second finds the counter at the bound,
    exceeds it, and goes Fatal. *)
Theorem retry_counter_shared_between_instances :
  (exists w',
      invoke 2 (secureRead want_read 16 0) two_sockets = Some ((0, -1), w')
      /\ heap w' !! 2%nat = Some connected)
  /\ (exists w1 w',
         invoke_many (Z.to_nat kMaxRetryCount) 1 (secureRead want_read 16 0)
           two_sockets = Some w1
         /\ heap w1 = heap two_sockets
         /\ secureRead_retry (globals w1) = kMaxRetryCount
         /\ invoke 2 (secureRead want_read 16 0) w1 = Some ((-1, -1), w')
         /\ m_fatal <$> heap w' !! 2%nat = Some true).
Proof.
  split.
  - destruct (secureRead_want want_read 16 0 fresh_statics connected 2%positive
                eq_refl eq_refl eq_refl
                ltac:(unfold fresh_statics; cbn [secureRead_retry]; lia))
      as (events & Hrun).
    change (secureRead_retry fresh_statics + 1 >? m_maxRetry connected)
      with false in Hrun.
    eexists. split.
    + exact (invoke_run 2 _ two_sockets connected _ _ two_sockets_2 Hrun).
    + cbn [heap this]. apply lookup_insert_eq.
  - destruct (invoke_many_want_reads want_read 16 0 (Z.to_nat kMaxRetryCount)
                two_sockets 1 connected 2%positive two_sockets_1
                eq_refl eq_refl eq_refl)
      as (w1 & Hmany & Hheap & Hglobals).
    { unfold two_sockets, fresh_statics. cbn [globals secureRead_retry]. lia. }
    { rewrite Z2Nat.id by (unfold kMaxRetryCount; lia).
      unfold two_sockets, fresh_statics, connected.
      cbn [globals secureRead_retry m_maxRetry]. lia. }
    { unfold connected, kMaxRetryCount. cbn [m_maxRetry]. lia. }
    rewrite Z2Nat.id in Hglobals by (unfold kMaxRetryCount; lia).
    assert (Hcount : secureRead_retry (globals w1) = kMaxRetryCount)
      by (rewrite Hglobals; reflexivity).
    destruct (secureRead_want want_read 16 0 (globals w1) connected 2%positive
                eq_refl eq_refl eq_refl
                ltac:(rewrite Hcount; unfold kMaxRetryCount; lia))
      as (events & Hrun).
    rewrite Hcount in Hrun.
    change (kMaxRetryCount + 1 >? m_maxRetry connected) with true in Hrun.
    assert (Hobj : heap w1 !! 2%nat = Some connected)
      by (rewrite Hheap; exact two_sockets_2).
    exists w1. eexists.
    split; [exact Hmany|]. split; [exact Hheap|]. split; [exact Hcount|].
    split.
    + exact (invoke_run 2 _ w1 connected _ _ Hobj Hrun).
    + cbn [heap this]. rewrite lookup_insert_eq. reflexivity.
Qed.

(** * Further properties of the code *)

(** ** The classification pass *)

Lemma get_set_retry_other (r r' : RetryRef) (v : Z) (s : Statics) :
  r' <> r -> get_retry r' (set_retry r v s) = get_retry r' s.
Proof. destruct r, r'; intros H; try reflexivity; contradiction H; reflexivity. Qed.

(** X1: when a pass ends Fatal.  The session is Fatal after [checkResult]
    exactly when it was Fatal before, or the result code is neither a
    success nor one of the four want-signals the switch names, or the
    counter as updated exceeds the bound.  [SSL_ERROR_WANT_X509_LOOKUP] is
    not among the four: it falls to the default case and is Fatal. *)
Theorem checkResult_fatal_exactly (e : Engine) (status : Z) (retry : RetryRef)
    (st : State) :
  exists st',
    checkResult e status retry st = Some (tt, st')
    /\ (m_fatal (this st') = true <->
        m_fatal (this st) = true
        \/ (ret_SSL_get_error e status <> SSL_ERROR_NONE
            /\ ret_SSL_get_error e status <> SSL_ERROR_WANT_READ
            /\ ret_SSL_get_error e status <> SSL_ERROR_WANT_WRITE
            /\ ret_SSL_get_error e status <> SSL_ERROR_WANT_CONNECT
            /\ ret_SSL_get_error e status <> SSL_ERROR_WANT_ACCEPT)
        \/ counted (ret_SSL_get_error e status) (get_retry retry (statics st))
           > m_maxRetry (this st))
    /\ (ret_SSL_get_error e status = SSL_ERROR_WANT_X509_LOOKUP ->
        m_fatal (this st') = true).
Proof.
  destruct (checkResult_run e status retry st) as (events & Hrun & _).
  eexists. split; [exact Hrun|]. cbn [this m_fatal].
  assert (Hcodes :
            negb ((ret_SSL_get_error e status =? SSL_ERROR_NONE)
                  || is_want (ret_SSL_get_error e status)) = true <->
            ret_SSL_get_error e status <> SSL_ERROR_NONE
            /\ ret_SSL_get_error e status <> SSL_ERROR_WANT_READ
            /\ ret_SSL_get_error e status <> SSL_ERROR_WANT_WRITE
            /\ ret_SSL_get_error e status <> SSL_ERROR_WANT_CONNECT
            /\ ret_SSL_get_error e status <> SSL_ERROR_WANT_ACCEPT).
  { unfold is_want.
    rewrite negb_true_iff, !orb_false_iff, !Z.eqb_neq. tauto. }
  split.
  - rewrite !orb_true_iff, Hcodes, Z.gtb_gt. tauto.
  - intros Hcode. rewrite Hcode.
    apply orb_true_iff. left. apply orb_true_iff. right. reflexivity.
Qed.

(** X2: the counter stays in range.  If the counter is non-negative and
    below [INT_MAX] when a pass starts, it is non-negative when the pass
    ends, and it is then zero or within the socket's bound: no pass leaves
    the counter above the bound. *)
Theorem checkResult_counter_range (e : Engine) (status : Z) (retry : RetryRef)
    (st : State) :
  0 <= get_retry retry (statics st) < 2 ^ 31 - 1 ->
  exists st',
    checkResult e status retry st = Some (tt, st')
    /\ 0 <= get_retry retry (statics st')
    /\ (get_retry retry (statics st') = 0
        \/ get_retry retry (statics st') <= m_maxRetry (this st')).
Proof.
  intros Hrange.
  destruct (checkResult_run e status retry st) as (events & Hrun & _).
  eexists. split; [exact Hrun|]. cbn [statics this m_maxRetry].
  rewrite get_set_retry.
  set (n := counted (ret_SSL_get_error e status) (get_retry retry (statics st))).
  assert (Hn : 0 <= n).
  { subst n. unfold counted.
    destruct (_ =? SSL_ERROR_NONE); [lia|].
    destruct (is_want _); [|lia].
    rewrite wrap32_small; lia. }
  destruct (m_fatal (this st) || _ || (n >? m_maxRetry (this st))) eqn:Hfatal.
  - split; [lia|left; reflexivity].
  - split; [exact Hn|]. right.
    apply orb_false_iff in Hfatal as [_ Hgt].
    apply not_true_iff_false in Hgt. rewrite Z.gtb_gt in Hgt. lia.
Qed.

Lemma checkResult_counter_range_witness :
  0 <= get_retry retry_of_secureRead (mk_Statics 7 0 0 0) < 2 ^ 31 - 1
  /\ exists st',
       checkResult want_read (-1) retry_of_secureRead
         (mk_State (mk_Statics 7 0 0 0) connected []) = Some (tt, st')
       /\ 0 <= get_retry retry_of_secureRead (statics st').
Proof.
  assert (Hrange : 0 <= get_retry retry_of_secureRead (mk_Statics 7 0 0 0)
                   < 2 ^ 31 - 1)
    by (split; [discriminate|reflexivity]).
  split; [exact Hrange|].
  destruct (checkResult_counter_range want_read (-1) retry_of_secureRead
              (mk_State (mk_Statics 7 0 0 0) connected []) Hrange)
    as (st' & Hrun & Hlow & _).
  exists st'. split; assumption.
Defined.

Ltac checkResult_leaf2 e limit fatal0 :=
  match goal with |- context [?x >? limit] => split_on (x >? limit) end;
  split_on fatal0;
  try (split_on (ret_ERR_get_error e =? 0);
       try split_on (String_empty (ret_ERR_error_string e)));
  rewrite <- ?app_assoc; cbn [app];
  first [ eexists; split; [reflexivity|]
        | exists []; rewrite app_nil_r; split; [reflexivity|] ];
  (split;
   [ intros Hfatal; first [ discriminate Hfatal | repeat constructor ]
   | repeat constructor ]).

(** ** The handshake steps *)

(** A pass again, with the kind of its events: it only reports. *)
Lemma checkResult_reports (e : Engine) (status : Z) (retry : RetryRef) (st : State) :
  let fatal := fatal_after e status retry (statics st) (this st) in
  let n := counted (ret_SSL_get_error e status) (get_retry retry (statics st)) in
  exists events,
    checkResult e status retry st
    = Some (tt, mk_State (set_retry retry (if fatal then 0 else n) (statics st))
                         (mk_SecureSocket (m_secureReady (this st)) fatal
                            (m_maxRetry (this st)) (m_ssl (this st)))
                         (trace st ++ events))
    /\ (fatal = false -> Forall (fun ev => is_notification ev = false) events)
    /\ Forall (fun ev => is_report ev = true) events.
Proof.
  cbv zeta. unfold fatal_after, checkResult, counted.
  destruct st as [sts [ready fatal0 limit ssl] tr].
  generalize (ret_SSL_get_error e status). intros c.
  run_M.
  split_on (c =? SSL_ERROR_NONE).
  { checkResult_leaf2 e limit fatal0. }
  split_on (c =? SSL_ERROR_ZERO_RETURN).
  { apply Z.eqb_eq in Heqb0. subst c.
    change (is_want SSL_ERROR_ZERO_RETURN) with false. run_step.
    checkResult_leaf2 e limit fatal0. }
  split_on (is_want c).
  { checkResult_leaf2 e limit fatal0. }
  split_on (c =? SSL_ERROR_SYSCALL).
  { split_on (ret_ERR_peek_error e =? 0);
      [split_on (status =? 0);
       [|split_on (status =? -1);
         [destruct (ret_throwErrorOnSocket e); run_step|]]|].
    all: checkResult_leaf2 e limit fatal0. }
  split_on (c =? SSL_ERROR_SSL).
  { checkResult_leaf2 e limit fatal0. }
  checkResult_leaf2 e limit fatal0.
Qed.

(** X3: what a pass leaves alone.  [checkResult] changes no member but the
    Fatal flag and no static but the counter it was handed, and it never
    clears the Fatal flag.  Once it has read the error code of the operation
    off the connection handle ([SSL_get_error]), it only reports: every
    event of a pass is a log line, a read of the engine's error queue, the
    socket error query or a notification, so that a pass starts no
    handshake, no transfer and no shutdown, and creates or frees no
    handle. *)
Theorem checkResult_frame (e : Engine) (status : Z) (retry : RetryRef)
    (st : State) :
  exists st' events,
    checkResult e status retry st = Some (tt, st')
    /\ m_secureReady (this st') = m_secureReady (this st)
    /\ m_maxRetry (this st') = m_maxRetry (this st)
    /\ m_ssl (this st') = m_ssl (this st)
    /\ (forall other, other <> retry ->
                     get_retry other (statics st') = get_retry other (statics st))
    /\ (m_fatal (this st) = true -> m_fatal (this st') = true)
    /\ trace st' = trace st ++ events
    /\ Forall (fun ev => is_report ev = true) events.
Proof.
  destruct (checkResult_reports e status retry st) as (events & Hrun & _ & Hrep).
  do 2 eexists. split; [exact Hrun|]. cbn [statics this trace m_secureReady
                                            m_maxRetry m_ssl m_fatal].
  repeat split; try exact Hrep.
  - intros other Hother. apply get_set_retry_other, Hother.
  - unfold fatal_after. intros ->. reflexivity.
Qed.

(** One server handshake step, in full. *)
Lemma secureAccept_run (e : Engine) (socket : Z) (st : State) :
  let h := handle_for_handshake e (this st) in
  let obj := mk_SecureSocket (m_secureReady (this st)) (m_fatal (this st))
               (m_maxRetry (this st)) (Ssl.mk (Ssl.m_context (m_ssl (this st))) h) in
  let fatal := fatal_after e (ret_SSL_accept e) retry_of_secureAccept (statics st) obj in
  let n := counted (ret_SSL_get_error e (ret_SSL_accept e))
             (secureAccept_retry (statics st)) in
  exists events,
    secureAccept e socket st
    = Some (if fatal then -1 else if n =? 0 then 1 else if n >? 0 then 0 else -1,
            mk_State (set_retry retry_of_secureAccept (if fatal then 0 else n) (statics st))
              (mk_SecureSocket
                 (if fatal then false else if n =? 0 then true
                  else if n >? 0 then false else m_secureReady (this st))
                 fatal (m_maxRetry (this st)) (m_ssl obj))
              (trace st ++ createSSL_events (this st)
                 ++ [SSL_set_fd h socket;
                     LOG CLOG_DEBUG2 "accepting secure socket" [];
                     SSL_accept h]
                 ++ events))
    /\ Forall (fun ev => is_report ev = true \/ ev = ARCH_sleep 1) events
    /\ (fatal = false -> Forall (fun ev => is_notification ev = false) events).
Proof.
  cbv zeta.
  destruct st as [sts [ready fatal0 limit [ctx ssl]] tr].
  unfold secureAccept, createSSL, handle_for_handshake, createSSL_events.
  run_M.
  destruct ssl as [h|]; run_M.
  all: match goal with
       | |- context [checkResult ?e ?s ?r ?st0] =>
           destruct (checkResult_reports e s r st0) as (events & Hrun & Hquiet & Hrep)
       end.
  all: rewrite Hrun; clear Hrun.
  all: cbn [statics this trace m_fatal m_maxRetry m_secureReady m_ssl get_retry] in *.
  all: match goal with
       | |- context [fatal_after ?a ?b ?c ?d ?f] =>
           generalize dependent (fatal_after a b c d f)
       end; intros fatal Hquiet.
  all: generalize dependent (counted (ret_SSL_get_error e (ret_SSL_accept e))
                               (secureAccept_retry sts)); intros n.
  all: destruct fatal; run_step; rewrite ?get_set_retry.
  all: try (cbn [get_retry set_retry secureAccept_retry];
            destruct (n =? 0); run_step;
            [destruct (ret_SSL_CIPHER_description e) as [[v|]|]; run_step
            |destruct (n >? 0); run_step]).
  all: cbn [get_retry set_retry secureAccept_retry].
  all: rewrite <- ?app_assoc; cbn [app].
  all: eexists; (split; [reflexivity|]).
  all: split;
    [ apply Forall_app; split;
      [ exact (List.Forall_impl _ (fun ev Hev => or_introl Hev) Hrep)
      | repeat (apply List.Forall_cons;
                [first [left; reflexivity | right; reflexivity]|]);
        apply List.Forall_nil ]
    | intros Hf;
      first [ discriminate Hf
            | apply Forall_app; split; [exact (Hquiet eq_refl)|repeat constructor] ] ].
Qed.

Lemma is_report_kind (ev : Event) :
  is_report ev = true -> is_verification ev = false /\ is_engine_call ev = false.
Proof. destruct ev; cbn; intros H; try discriminate H; split; reflexivity. Qed.

Lemma ends_with_disconnect (pre l : list Event) :
  (exists mid, l = mid ++ [sendEvent stopRetry; sendEvent disconnected;
                           sendEvent inputShutdown]) ->
  exists before, pre ++ l = before ++ [sendEvent stopRetry; sendEvent disconnected;
                                       sendEvent inputShutdown].
Proof.
  intros [mid ->]. exists (pre ++ mid). rewrite app_assoc. reflexivity.
Qed.

(** One client handshake step, in full. *)
Lemma secureConnect_run (e : Engine) (socket : Z) (st : State) :
  let h := handle_for_handshake e (this st) in
  let obj := mk_SecureSocket (m_secureReady (this st)) (m_fatal (this st))
               (m_maxRetry (this st)) (Ssl.mk (Ssl.m_context (m_ssl (this st))) h) in
  let fatal := fatal_after e (ret_SSL_connect e) retry_of_secureConnect (statics st) obj in
  let n := counted (ret_SSL_get_error e (ret_SSL_connect e))
             (secureConnect_retry (statics st)) in
  let result := if fatal then -1 else if n >? 0 then 0
                else if verifies e && has_certificate e then 1 else -1 in
  exists events,
    secureConnect e socket st
    = Some (result,
            mk_State (set_retry retry_of_secureConnect (if fatal then 0 else n) (statics st))
              (mk_SecureSocket
                 (if fatal then m_secureReady (this st)
                  else if n >? 0 then false else true)
                 fatal (m_maxRetry (this st)) (m_ssl obj))
              (trace st ++ createSSL_events (this st)
                 ++ [SSL_set_fd h socket;
                     LOG CLOG_DEBUG2 "connecting secure socket" [];
                     SSL_connect h]
                 ++ events))
    /\ Forall (fun ev => is_engine_call ev = false) events
    /\ (fatal || (n >? 0) = true ->
        Forall (fun ev => is_verification ev = false) events)
    /\ (fatal = false -> (n >? 0) || (verifies e && has_certificate e) = true ->
        Forall (fun ev => is_notification ev = false) events)
    /\ (fatal = false -> (n >? 0) || (verifies e && has_certificate e) = false ->
        exists before,
          events = before ++ [sendEvent stopRetry; sendEvent disconnected;
                              sendEvent inputShutdown]).
Proof.
  cbv zeta.
  destruct st as [sts [ready fatal0 limit [ctx ssl]] tr].
  unfold secureConnect, createSSL, handle_for_handshake, createSSL_events,
    verifies, has_certificate, showCertificate.
  run_M.
  destruct ssl as [h|]; run_M.
  all: match goal with
       | |- context [checkResult ?e ?s ?r ?st0] =>
           destruct (checkResult_reports e s r st0) as (events & Hrun & Hquiet & Hrep)
       end.
  all: rewrite Hrun; clear Hrun.
  all: cbn [statics this trace m_fatal m_maxRetry m_secureReady m_ssl get_retry] in *.
  all: match goal with
       | |- context [fatal_after ?a ?b ?c ?d ?f] =>
           generalize dependent (fatal_after a b c d f)
       end; intros fatal Hquiet.
  all: generalize dependent (counted (ret_SSL_get_error e (ret_SSL_connect e))
                               (secureConnect_retry sts)); intros n.
  all: assert (Hcalls : Forall (fun ev => is_engine_call ev = false) events)
         by (eapply List.Forall_impl; [|exact Hrep];
             intros ev Hev; apply is_report_kind, Hev).
  all: assert (Hverif : Forall (fun ev => is_verification ev = false) events)
         by (eapply List.Forall_impl; [|exact Hrep];
             intros ev Hev; apply is_report_kind, Hev).
  all: destruct fatal; run_step; rewrite ?get_set_retry.
  all: cbn [get_retry set_retry secureConnect_retry].
  all: try (destruct (n >? 0); run_step).
  all: try (rewrite verifyCertFingerprint_run; cbv zeta; unfold logged;
            destruct (ret_SSL_get_peer_certificate e) as [cert|]).
  all: try match goal with
           | |- context [ret_X509_digest ?e' ?c] =>
               destruct (ret_X509_digest e' c) as [d bytes];
               cbn [fst snd]; destruct (d <=? 0); run_step
           end.
  all: try match goal with
           | |- context [trusted ?a ?b] => destruct (trusted a b); run_step
           end.
  all: try match goal with
           | |- context [ret_SSL_CIPHER_description ?e'] =>
               destruct (ret_SSL_CIPHER_description e') as [[v|]|]; run_step
           end.
  all: try match goal with
           | |- context [ret_ERR_get_error ?e' =? 0] =>
               destruct (ret_ERR_get_error e' =? 0); run_step
           end.
  all: try match goal with
           | |- context [String_empty (ret_ERR_error_string ?e')] =>
               destruct (String_empty (ret_ERR_error_string e')); run_step
           end.
  all: rewrite <- ?app_assoc; cbn [app].
  all: eexists; (split; [reflexivity|]).
  all: split; [apply Forall_app; split; [exact Hcalls|repeat constructor]|].
  all: split;
    [intros Hv; first [ discriminate Hv
                      | apply Forall_app; split; [exact Hverif|repeat constructor] ]|].
  all: split;
    [ intros Hf Hr;
      first [ discriminate Hf | discriminate Hr
            | apply Forall_app; split; [exact (Hquiet eq_refl)|repeat constructor] ]
    | intros Hf Hr;
      first [ discriminate Hf | discriminate Hr
            | apply ends_with_disconnect;
              first [ exists []; reflexivity
                    | eexists [_]; reflexivity
                    | eexists [_; _]; reflexivity
                    | eexists [_; _; _]; reflexivity
                    | eexists [_; _; _; _]; reflexivity
                    | eexists [_; _; _; _; _]; reflexivity
                    | eexists [_; _; _; _; _; _]; reflexivity
                    | eexists [_; _; _; _; _; _; _]; reflexivity
                    | eexists [_; _; _; _; _; _; _; _]; reflexivity ] ] ].
Qed.

Lemma trusted_lines (content : option String) (fingerprint : String) :
  trusted content fingerprint = true <->
  exists text, content = Some text /\ In fingerprint (lines text) /\ fingerprint <> [].
Proof.
  destruct content as [text|]; cbn [trusted].
  - rewrite existsb_exists. split.
    + intros (line & Hin & Hgr). apply grants_spec in Hgr as [Hne ->]. eauto.
    + intros (text' & [= <-] & Hin & Hne). exists fingerprint.
      split; [exact Hin|]. apply grants_spec. split; [exact Hne|reflexivity].
  - split; [discriminate|]. intros (text & Habs & _). discriminate Habs.
Qed.

Lemma counted_in_range (errorCode r : Z) :
  0 <= r < 2 ^ 31 - 1 ->
  0 <= counted errorCode r
  /\ (counted errorCode r = 0 <-> errorCode = SSL_ERROR_NONE \/
                                  (is_want errorCode = false /\ r = 0)).
Proof.
  intros Hr. unfold counted.
  destruct (Z.eqb_spec errorCode SSL_ERROR_NONE) as [->|Hne].
  - split; [lia|]. split; auto.
  - destruct (is_want errorCode).
    + rewrite wrap32_small by lia. split; [lia|].
      split; [lia|]. intros [Heq|[Hw _]]; [contradiction|discriminate].
    + split; [lia|]. split; [auto|]. intros [Heq|[_ Heq]]; [contradiction|exact Heq].
Qed.

(** X4: one server handshake step.  With the counter of [secureAccept] in
    range, the step returns -1, 0 or 1; it returns 1 exactly when the socket
    was not Fatal, the engine reports [SSL_ERROR_NONE] and the bound is not
    negative; [isSecureReady()] is true afterwards exactly when it returned
    1, and [serviceAccept] hands the scheduler a new job for 1, the same job
    for 0 and none for -1; nothing of the peer is verified: no digest is
    taken and the trust store is not opened. *)
Theorem secureAccept_outcome (e : Engine) (socket : Z) (st : State) :
  0 <= secureAccept_retry (statics st) < 2 ^ 31 - 1 ->
  exists result st' new,
    secureAccept e socket st = Some (result, st')
    /\ serviceAccept e socket st
       = Some (if result =? 1 then newJob else if result =? 0 then sameJob else noJob,
               st')
    /\ (result = -1 \/ result = 0 \/ result = 1)
    /\ (result = 1 <->
        m_fatal (this st) = false
        /\ ret_SSL_get_error e (ret_SSL_accept e) = SSL_ERROR_NONE
        /\ 0 <= m_maxRetry (this st))
    /\ (m_secureReady (this st') = true <-> result = 1)
    /\ (m_fatal (this st') = true -> result = -1)
    /\ trace st' = trace st ++ new
    /\ Forall (fun ev => is_verification ev = false) new.
Proof.
  intros Hrange.
  destruct (secureAccept_run e socket st) as (events & Hrun & Hkind & _).
  cbv zeta in Hrun. unfold serviceAccept, bind. rewrite Hrun. clear Hrun.
  unfold fatal_after. cbn [m_fatal m_maxRetry get_retry].
  destruct (counted_in_range (ret_SSL_get_error e (ret_SSL_accept e))
              (secureAccept_retry (statics st)) Hrange) as [Hn Hzero].
  set (n := counted _ _) in *.
  set (c := ret_SSL_get_error e (ret_SSL_accept e)) in *.
  do 3 eexists. split; [reflexivity|]. cbn [this trace m_secureReady m_fatal].
  assert (Hcode : (c =? SSL_ERROR_NONE) = true -> n = 0)
    by (intros H; apply Hzero; left; apply Z.eqb_eq, H).
  assert (Hwant : is_want c = true -> n <> 0).
  { intros Hw Hn0. apply Hzero in Hn0 as [Hc|[Hw' _]].
    - apply is_want_not_none in Hw. apply Z.eqb_neq in Hw. contradiction.
    - rewrite Hw in Hw'. discriminate. }
  split; [|split; [|split; [|split; [|split; [|split]]]]].
  - unfold ret, jobResult.
    destruct (_ || _ || _); [reflexivity|]. destruct (n =? 0); [reflexivity|].
    destruct (n >? 0); reflexivity.
  - destruct (_ || _ || _); [auto|]. destruct (n =? 0); [auto|].
    destruct (n >? 0); auto.
  - destruct (m_fatal (this st)) eqn:Hf; cbn [orb].
    { split; [discriminate|]. intros [Habs _]. discriminate. }
    destruct (Z.eqb_spec c SSL_ERROR_NONE) as [Hc|Hc]; cbn [orb negb].
    + rewrite (Hcode eq_refl). cbn [Z.eqb].
      destruct (Z.gtb_spec 0 (m_maxRetry (this st))).
      * split; [discriminate|]. intros (_ & _ & Hb). lia.
      * split; [intros _; repeat split; [exact Hc|lia]|reflexivity].
    + destruct (is_want c) eqn:Hw; cbn [negb orb].
      * destruct (n >? m_maxRetry (this st)).
        { split; [discriminate|]. intros (_ & Habs & _). contradiction. }
        pose proof (Hwant eq_refl) as Hn0. apply Z.eqb_neq in Hn0. rewrite Hn0.
        split; [destruct (n >? 0); discriminate|].
        intros (_ & Habs & _). contradiction.
      * split; [discriminate|]. intros (_ & Habs & _). contradiction.
  - destruct (_ || _ || _); [split; discriminate|].
    destruct (Z.eqb_spec n 0) as [Hn0|Hn0]; [split; reflexivity|].
    replace (n >? 0) with true by (symmetry; apply Z.gtb_gt; lia).
    split; discriminate.
  - destruct (_ || _ || _); [reflexivity|discriminate].
  - reflexivity.
  - apply Forall_app. split.
    + unfold createSSL_events. destruct (Ssl.m_ssl _); repeat constructor.
    + apply Forall_app. split; [repeat constructor|].
      eapply List.Forall_impl; [|exact Hkind].
      intros ev [Hrep| ->]; [apply is_report_kind, Hrep|reflexivity].
Qed.

Lemma secureAccept_outcome_witness :
  0 <= secureAccept_retry fresh_statics < 2 ^ 31 - 1
  /\ exists st',
       secureAccept (negotiated None) 5 (mk_State fresh_statics initialised [])
       = Some (1, st')
       /\ m_secureReady (this st') = true.
Proof.
  assert (Hrange : 0 <= secureAccept_retry fresh_statics < 2 ^ 31 - 1)
    by (split; [discriminate|reflexivity]).
  split; [exact Hrange|].
  destruct (secureAccept_outcome (negotiated None) 5
              (mk_State fresh_statics initialised []) Hrange)
    as (result & st' & new & Hrun & _ & _ & Hone & Hready & _).
  assert (Hres : result = 1).
  { apply Hone. split; [reflexivity|]. split; [reflexivity|discriminate]. }
  exists st'. split; [rewrite <- Hres; exact Hrun|].
  apply Hready, Hres.
Defined.

Lemma verifies_spec (e : Engine) :
  verifies e = true <->
  0 < fst (ret_X509_digest e (ret_SSL_get_peer_certificate e))
  /\ exists text,
       files e (trustedServersFilename e) = Some text
       /\ In (canonicalForm (snd (ret_X509_digest e (ret_SSL_get_peer_certificate e))))
             (lines text)
       /\ canonicalForm (snd (ret_X509_digest e (ret_SSL_get_peer_certificate e))) <> [].
Proof.
  unfold verifies. rewrite andb_true_iff, negb_true_iff, Z.leb_gt, trusted_lines.
  split; (intros [Hd Htrust]; split; [lia|exact Htrust]).
Qed.

(** X5: no success without verification.  With the counter of
    [secureConnect] in range, a client handshake step returns 1, and
    [serviceConnect] hands the scheduler a new job, only if the socket was
    not Fatal, the engine reported [SSL_ERROR_NONE], the digest of the peer
    certificate reported a positive result, the formatted fingerprint is a
    line of the trust-store file, and the peer showed a certificate. *)
Theorem serviceConnect_newJob_verified (e : Engine) (fd : Z) (st st' : State) :
  0 <= secureConnect_retry (statics st) < 2 ^ 31 - 1 ->
  serviceConnect e fd st = Some (newJob, st') ->
  secureConnect e fd st = Some (1, st')
  /\ m_fatal (this st) = false
  /\ ret_SSL_get_error e (ret_SSL_connect e) = SSL_ERROR_NONE
  /\ 0 < fst (ret_X509_digest e (ret_SSL_get_peer_certificate e))
  /\ (exists text,
         files e (trustedServersFilename e) = Some text
         /\ In (canonicalForm (snd (ret_X509_digest e (ret_SSL_get_peer_certificate e))))
               (lines text))
  /\ ret_SSL_get_peer_certificate e <> None
  /\ m_secureReady (this st') = true
  /\ m_fatal (this st') = false.
Proof.
  intros Hrange Hjob.
  destruct (secureConnect_run e fd st) as (events & Hrun & _).
  cbv zeta in Hrun. unfold serviceConnect, bind in Hjob. rewrite Hrun in *.
  clear Hrun. unfold ret in Hjob.
  unfold fatal_after in *. cbn [m_fatal m_maxRetry get_retry] in *.
  destruct (counted_in_range (ret_SSL_get_error e (ret_SSL_connect e))
              (secureConnect_retry (statics st)) Hrange) as [Hn Hzero].
  set (n := counted _ _) in *.
  set (c := ret_SSL_get_error e (ret_SSL_connect e)) in *.
  destruct (m_fatal (this st) || negb ((c =? SSL_ERROR_NONE) || is_want c)
            || (n >? m_maxRetry (this st))) eqn:Hfatal;
    [discriminate Hjob|].
  destruct (Z.gtb_spec n 0) as [Hpos|Hnpos]; [discriminate Hjob|].
  destruct (verifies e && has_certificate e) eqn:Hver; [|discriminate Hjob].
  injection Hjob as <-.
  apply orb_false_iff in Hfatal as [Hfatal _].
  apply orb_false_iff in Hfatal as [Hf Hcodes].
  apply negb_false_iff, orb_true_iff in Hcodes.
  assert (Hn0 : n = 0) by lia.
  apply Hzero in Hn0.
  assert (Hc : c = SSL_ERROR_NONE).
  { destruct Hn0 as [Hc|[Hw _]]; [exact Hc|].
    destruct Hcodes as [Hc|Hw']; [apply Z.eqb_eq, Hc|].
    rewrite Hw in Hw'. discriminate. }
  apply andb_true_iff in Hver as [Hver Hcert].
  apply verifies_spec in Hver as (Hd & text & Hfile & Hin & _).
  split; [reflexivity|]. split; [exact Hf|]. split; [exact Hc|].
  split; [exact Hd|]. split; [eauto|].
  split; [|split; reflexivity].
  unfold has_certificate in Hcert.
  destruct (ret_SSL_get_peer_certificate e); [discriminate|discriminate Hcert].
Qed.

Lemma serviceConnect_newJob_verified_witness :
  0 <= secureConnect_retry fresh_statics < 2 ^ 31 - 1
  /\ exists st',
       serviceConnect (negotiated (Some trusting_store)) 5
         (mk_State fresh_statics initialised []) = Some (newJob, st')
       /\ secureConnect (negotiated (Some trusting_store)) 5
            (mk_State fresh_statics initialised []) = Some (1, st').
Proof.
  assert (Hrange : 0 <= secureConnect_retry fresh_statics < 2 ^ 31 - 1)
    by (split; [discriminate|reflexivity]).
  split; [exact Hrange|].
  let v := eval vm_compute in
             (serviceConnect (negotiated (Some trusting_store)) 5
                (mk_State fresh_statics initialised [])) in
  lazymatch v with
  | Some (newJob, ?s) =>
      exists s;
      assert (Hjob : serviceConnect (negotiated (Some trusting_store)) 5
                       (mk_State fresh_statics initialised []) = Some (newJob, s))
        by (vm_compute; reflexivity)
  end.
  split; [exact Hjob|].
  pose proof (serviceConnect_newJob_verified
                (negotiated (Some trusting_store)) 5
                (mk_State fresh_statics initialised []) _ Hrange Hjob) as Hsafe.
  exact (proj1 Hsafe).
Defined.

(** X6: the trusted peer.  A client handshake step on a socket that is not
    Fatal, in which the engine reports [SSL_ERROR_NONE], the peer shows a
    certificate whose digest succeeds and whose fingerprint is a line of the
    trust-store file, returns 1: the socket is Ready and not Fatal, the
    counter is zero, and no disconnect notification is sent. *)
Theorem secureConnect_trusted_peer (e : Engine) (fd : Z) (st : State) (text : String) :
  m_fatal (this st) = false ->
  0 <= m_maxRetry (this st) ->
  ret_SSL_get_error e (ret_SSL_connect e) = SSL_ERROR_NONE ->
  ret_SSL_get_peer_certificate e <> None ->
  0 < fst (ret_X509_digest e (ret_SSL_get_peer_certificate e)) ->
  snd (ret_X509_digest e (ret_SSL_get_peer_certificate e)) <> [] ->
  files e (trustedServersFilename e) = Some text ->
  In (canonicalForm (snd (ret_X509_digest e (ret_SSL_get_peer_certificate e))))
     (lines text) ->
  exists st' new,
    secureConnect e fd st = Some (1, st')
    /\ serviceConnect e fd st = Some (newJob, st')
    /\ m_secureReady (this st') = true
    /\ m_fatal (this st') = false
    /\ secureConnect_retry (statics st') = 0
    /\ trace st' = trace st ++ new
    /\ Forall (fun ev => is_notification ev = false) new.
Proof.
  intros Hfatal Hbound Hnone Hcert Hdigest Hbytes Hfile Hin.
  destruct (secureConnect_run e fd st) as (events & Hrun & _ & _ & Hquiet & _).
  cbv zeta in Hrun, Hquiet.
  assert (Hver : verifies e && has_certificate e = true).
  { apply andb_true_iff. split.
    - apply verifies_spec. split; [exact Hdigest|].
      exists text. split; [exact Hfile|]. split; [exact Hin|].
      intros Hempty. apply (f_equal length) in Hempty.
      rewrite length_canonicalForm in Hempty.
      destruct (snd (ret_X509_digest e (ret_SSL_get_peer_certificate e)));
        [contradiction|cbn [length] in Hempty; lia].
    - unfold has_certificate. destruct (ret_SSL_get_peer_certificate e);
        [reflexivity|contradiction]. }
  assert (Hnot : fatal_after e (ret_SSL_connect e) retry_of_secureConnect (statics st)
                   (mk_SecureSocket (m_secureReady (this st)) (m_fatal (this st))
                      (m_maxRetry (this st))
                      (Ssl.mk (Ssl.m_context (m_ssl (this st)))
                         (handle_for_handshake e (this st)))) = false).
  { unfold fatal_after. cbn [m_fatal m_maxRetry]. rewrite Hfatal, Hnone.
    unfold counted. cbn [Z.eqb SSL_ERROR_NONE orb negb].
    apply not_true_is_false. rewrite Z.gtb_gt. lia. }
  rewrite Hnot in *. rewrite Hnone in *.
  change (counted SSL_ERROR_NONE (secureConnect_retry (statics st))) with 0 in *.
  change (0 >? 0) with false in *. rewrite Hver in *. cbn [orb] in Hquiet.
  do 2 eexists. split; [exact Hrun|].
  split; [unfold serviceConnect, bind; rewrite Hrun; reflexivity|].
  cbn [this statics trace m_secureReady m_fatal].
  split; [reflexivity|]. split; [reflexivity|].
  split; [apply (get_set_retry retry_of_secureConnect)|].
  split; [reflexivity|].
  apply Forall_app. split.
  { unfold createSSL_events. destruct (Ssl.m_ssl _); repeat constructor. }
  apply Forall_app. split; [repeat constructor|].
  exact (Hquiet eq_refl eq_refl).
Qed.

Lemma secureConnect_trusted_peer_witness :
  m_fatal initialised = false
  /\ exists st',
       secureConnect (negotiated (Some trusting_store)) 5
         (mk_State fresh_statics initialised []) = Some (1, st')
       /\ m_secureReady (this st') = true.
Proof.
  split; [reflexivity|].
  destruct (secureConnect_trusted_peer (negotiated (Some trusting_store)) 5
              (mk_State fresh_statics initialised []) trusting_store
              eq_refl ltac:(discriminate) eq_refl ltac:(discriminate) eq_refl
              ltac:(discriminate) eq_refl
              ltac:(right; left; reflexivity))
    as (st' & new & Hrun & _ & Hready & _).
  exists st'. split; assumption.
Defined.

(** X7: the handshake that would block.  When the engine answers a client
    handshake step with a want-signal and the counter, in range, stays within
    the bound, [secureConnect] returns 0 and [serviceConnect] hands the same
    job back: the socket is not Ready and not Fatal, the counter has gone up
    by one, nothing of the peer has been verified and no notification has
    been sent. *)
Theorem secureConnect_would_block (e : Engine) (fd : Z) (st : State) :
  m_fatal (this st) = false ->
  is_want (ret_SSL_get_error e (ret_SSL_connect e)) = true ->
  0 <= secureConnect_retry (statics st) < 2 ^ 31 - 1 ->
  secureConnect_retry (statics st) + 1 <= m_maxRetry (this st) ->
  exists st' new,
    secureConnect e fd st = Some (0, st')
    /\ serviceConnect e fd st = Some (sameJob, st')
    /\ m_secureReady (this st') = false
    /\ m_fatal (this st') = false
    /\ secureConnect_retry (statics st') = secureConnect_retry (statics st) + 1
    /\ trace st' = trace st ++ new
    /\ Forall (fun ev => is_verification ev = false /\ is_notification ev = false) new.
Proof.
  intros Hfatal Hwant Hrange Hbound.
  destruct (secureConnect_run e fd st) as (events & Hrun & _ & Hverif & Hquiet & _).
  cbv zeta in Hrun, Hverif, Hquiet.
  assert (Hn : counted (ret_SSL_get_error e (ret_SSL_connect e))
                 (secureConnect_retry (statics st))
               = secureConnect_retry (statics st) + 1).
  { unfold counted. rewrite (is_want_not_none _ Hwant), Hwant.
    apply wrap32_small. lia. }
  assert (Hnot : fatal_after e (ret_SSL_connect e) retry_of_secureConnect (statics st)
                   (mk_SecureSocket (m_secureReady (this st)) (m_fatal (this st))
                      (m_maxRetry (this st))
                      (Ssl.mk (Ssl.m_context (m_ssl (this st)))
                         (handle_for_handshake e (this st)))) = false).
  { unfold fatal_after. cbn [m_fatal m_maxRetry get_retry].
    rewrite Hfatal, Hwant, orb_true_r, Hn. cbn [negb orb].
    apply not_true_is_false. rewrite Z.gtb_gt. lia. }
  rewrite Hnot, Hn in *.
  replace (secureConnect_retry (statics st) + 1 >? 0) with true in *
    by (symmetry; apply Z.gtb_gt; lia).
  do 2 eexists. split; [exact Hrun|].
  split; [unfold serviceConnect, bind; rewrite Hrun; reflexivity|].
  cbn [this statics trace m_secureReady m_fatal].
  split; [reflexivity|]. split; [reflexivity|].
  split; [apply (get_set_retry retry_of_secureConnect)|].
  split; [reflexivity|].
  apply Forall_app. split.
  { unfold createSSL_events. destruct (Ssl.m_ssl _); repeat constructor. }
  apply Forall_app. split; [repeat constructor|].
  specialize (Hverif eq_refl). specialize (Hquiet eq_refl eq_refl).
  apply List.Forall_forall. intros ev Hev. split.
  - exact (proj1 (List.Forall_forall _ _) Hverif ev Hev).
  - exact (proj1 (List.Forall_forall _ _) Hquiet ev Hev).
Qed.

Lemma secureConnect_would_block_witness :
  m_fatal initialised = false
  /\ exists st',
       secureConnect want_read 5 (mk_State fresh_statics initialised []) = Some (0, st')
       /\ secureConnect_retry (statics st') = 1.
Proof.
  split; [reflexivity|].
  assert (Hrange : 0 <= secureConnect_retry fresh_statics < 2 ^ 31 - 1)
    by (split; [discriminate|reflexivity]).
  assert (Hbound : secureConnect_retry fresh_statics + 1 <= m_maxRetry initialised)
    by discriminate.
  destruct (secureConnect_would_block want_read 5
              (mk_State fresh_statics initialised [])
              eq_refl eq_refl Hrange Hbound)
    as (st' & new & Hrun & _ & _ & _ & Hcount & _).
  exists st'. split; assumption.
Defined.

(** On a Fatal socket the four operations, one by one. *)
Lemma fatal_is_final_run (e : Engine) (size count : Z) (st : State) :
  m_fatal (this st) = true ->
  (forall fd, exists st', secureConnect e fd st = Some (-1, st')
                          /\ m_fatal (this st') = true
                          /\ secureConnect_retry (statics st') = 0)
  /\ (forall fd, exists st', secureAccept e fd st = Some (-1, st')
                             /\ m_fatal (this st') = true
                             /\ m_secureReady (this st') = false
                             /\ secureAccept_retry (statics st') = 0)
  /\ (forall h, Ssl.m_ssl (m_ssl (this st)) = Some h ->
      (exists st', secureRead e size count st = Some ((-1, ret_SSL_read e), st')
                   /\ m_fatal (this st') = true
                   /\ secureRead_retry (statics st') = 0)
      /\ (exists st', secureWrite e size count st = Some ((-1, ret_SSL_write e), st')
                      /\ m_fatal (this st') = true
                      /\ secureWrite_retry (statics st') = 0)).
Proof.
  intros Hfatal. split; [|split].
  - intros fd. destruct (secureConnect_run e fd st) as (events & Hrun & _).
    cbv zeta in Hrun. unfold fatal_after in Hrun. cbn [m_fatal] in Hrun.
    rewrite Hfatal in Hrun. cbn [orb] in Hrun.
    eexists. split; [exact Hrun|]. split; [reflexivity|].
    apply (get_set_retry retry_of_secureConnect).
  - intros fd. destruct (secureAccept_run e fd st) as (events & Hrun & _).
    cbv zeta in Hrun. unfold fatal_after in Hrun. cbn [m_fatal] in Hrun.
    rewrite Hfatal in Hrun. cbn [orb] in Hrun.
    eexists. split; [exact Hrun|]. split; [reflexivity|]. split; [reflexivity|].
    apply (get_set_retry retry_of_secureAccept).
  - intros h Hssl. split.
    + destruct (secureRead_handle e size count st h Hssl) as (st' & Hcheck & ->).
      destruct (checkResult_run e (ret_SSL_read e) retry_of_secureRead
                  (logged st [LOG CLOG_DEBUG2 "reading secure socket" [];
                              SSL_read (Some h) size])) as (events & Hrun & _).
      rewrite Hrun in Hcheck. injection Hcheck as <-.
      cbn [logged statics this trace m_fatal]. rewrite Hfatal. cbn [orb].
      cbn [set_retry secureRead_retry Z.eqb negb].
      eexists. split; [reflexivity|]. split; reflexivity.
    + destruct (secureWrite_handle e size count st h Hssl) as (st' & Hcheck & ->).
      destruct (checkResult_run e (ret_SSL_write e) retry_of_secureWrite
                  (logged st [LOG CLOG_DEBUG2 "writing secure socket:%p" [];
                              SSL_write (Some h) size])) as (events & Hrun & _).
      rewrite Hrun in Hcheck. injection Hcheck as <-.
      cbn [logged statics this trace m_fatal]. rewrite Hfatal. cbn [orb].
      cbn [set_retry secureWrite_retry Z.eqb negb].
      eexists. split; [reflexivity|]. split; reflexivity.
Qed.

(** X8: Fatal is final.  On a socket that is Fatal, whatever the engine
    answers, a handshake step of either kind returns -1, and so does a read
    or a write on a socket that has a connection handle; the socket stays
    Fatal and the counter of the function is left at zero. *)
Theorem fatal_is_final (e : Engine) (fd size count : Z) (st : State) :
  m_fatal (this st) = true ->
  (exists st', secureConnect e fd st = Some (-1, st')
               /\ m_fatal (this st') = true
               /\ secureConnect_retry (statics st') = 0)
  /\ (exists st', secureAccept e fd st = Some (-1, st')
                  /\ m_fatal (this st') = true
                  /\ m_secureReady (this st') = false
                  /\ secureAccept_retry (statics st') = 0)
  /\ (forall h, Ssl.m_ssl (m_ssl (this st)) = Some h ->
      (exists st', secureRead e size count st = Some ((-1, ret_SSL_read e), st')
                   /\ m_fatal (this st') = true
                   /\ secureRead_retry (statics st') = 0)
      /\ (exists st', secureWrite e size count st = Some ((-1, ret_SSL_write e), st')
                      /\ m_fatal (this st') = true
                      /\ secureWrite_retry (statics st') = 0)).
Proof.
  intros Hfatal.
  destruct (fatal_is_final_run e size count st Hfatal) as (Hconnect & Haccept & Hio).
  split; [exact (Hconnect fd)|]. split; [exact (Haccept fd)|exact Hio].
Qed.

Lemma fatal_is_final_witness :
  m_fatal fatal_socket = true
  /\ exists st',
       secureRead (negotiated None) 16 0 (mk_State fresh_statics fatal_socket [])
       = Some ((-1, 1), st').
Proof.
  split; [reflexivity|].
  destruct (proj1 (proj2 (proj2 (fatal_is_final (negotiated None) 5 16 0
                                   (mk_State fresh_statics fatal_socket []) eq_refl))
                     2%positive eq_refl))
    as (st' & Hrun & _).
  exists st'. exact Hrun.
Defined.

(** ** What a read and a write return *)

Ltac pick_state :=
  lazymatch goal with
  | |- exists st', Some (_, ?s) = _ /\ _ => exists s
  end;
  cbn [this statics m_fatal secureRead_retry secureWrite_retry Z.eqb negb].



(** X10: how many retries are tolerated.  Starting with the counter at
    zero, a socket whose bound is [b] takes [b] reads in a row that the
    engine answers with a want-signal and is left exactly as it was; the
    read after those, answered the same way, returns -1, leaves the socket
    Fatal and the counter at zero. *)
Theorem secureRead_retry_threshold (e : Engine) (size count : Z) (w : World)
    (a : nat) (obj : SecureSocket) (h : SSL) :
  heap w !! a = Some obj ->
  Ssl.m_ssl (m_ssl obj) = Some h ->
  m_fatal obj = false ->
  is_want (ret_SSL_get_error e (ret_SSL_read e)) = true ->
  secureRead_retry (globals w) = 0 ->
  0 <= m_maxRetry obj < 2 ^ 31 - 1 ->
  exists w1 w2,
    invoke_many (Z.to_nat (m_maxRetry obj)) a (secureRead e size count) w = Some w1
    /\ heap w1 = heap w
    /\ secureRead_retry (globals w1) = m_maxRetry obj
    /\ invoke a (secureRead e size count) w1 = Some ((-1, ret_SSL_read e), w2)
    /\ m_fatal <$> heap w2 !! a = Some true
    /\ secureRead_retry (globals w2) = 0.
Proof.
  intros Hobj Hssl Hfatal Hwant Hzero Hbound.
  destruct (invoke_many_want_reads e size count (Z.to_nat (m_maxRetry obj))
              w a obj h Hobj Hssl Hfatal Hwant)
    as (w1 & Hmany & Hheap & Hglobals).
  { lia. }
  { rewrite Z2Nat.id by lia. lia. }
  { lia. }
  rewrite Z2Nat.id, Hzero, Z.add_0_l in Hglobals by lia.
  assert (Hcount : secureRead_retry (globals w1) = m_maxRetry obj)
    by (rewrite Hglobals; apply (get_set_retry retry_of_secureRead)).
  destruct (secureRead_want e size count (globals w1) obj h Hssl Hfatal Hwant
              ltac:(lia)) as (events & Hrun).
  rewrite Hcount in Hrun.
  replace (m_maxRetry obj + 1 >? m_maxRetry obj) with true in Hrun
    by (symmetry; apply Z.gtb_gt; lia).
  assert (Hobj1 : heap w1 !! a = Some obj) by (rewrite Hheap; exact Hobj).
  exists w1. eexists.
  split; [exact Hmany|]. split; [exact Hheap|]. split; [exact Hcount|].
  split; [exact (invoke_run a _ w1 obj _ _ Hobj1 Hrun)|].
  cbn [heap globals statics this]. rewrite lookup_insert_eq.
  split; [reflexivity|]. apply (get_set_retry retry_of_secureRead).
Qed.

Lemma secureRead_retry_threshold_witness :
  heap two_sockets !! 1%nat = Some connected
  /\ exists w1 w2,
       invoke_many (Z.to_nat kMaxRetryCount) 1 (secureRead want_read 16 0) two_sockets
       = Some w1
       /\ invoke 1 (secureRead want_read 16 0) w1 = Some ((-1, -1), w2).
Proof.
  split; [exact two_sockets_1|].
  assert (Hbound : 0 <= m_maxRetry connected < 2 ^ 31 - 1)
    by (split; [discriminate|reflexivity]).
  destruct (secureRead_retry_threshold want_read 16 0 two_sockets 1 connected
              2%positive two_sockets_1 eq_refl eq_refl eq_refl eq_refl Hbound)
    as (w1 & w2 & Hmany & _ & _ & Hlast & _).
  exists w1, w2. split; assumption.
Defined.

(** ** The handles *)





(** X13: a read after [close].  [close] marks the socket Fatal and asks the
    engine to shut the connection down, but it keeps both handles and leaves
    [m_secureReady] as it was.  A read that follows still reaches the engine
    on the handle that was shut down; it returns -1 whatever the engine
    answers. *)
Theorem read_after_close (e : Engine) (size count : Z) (st : State) (h : SSL) :
  Ssl.m_ssl (m_ssl (this st)) = Some h ->
  exists st1 st2 after,
    close st = Some (tt, st1)
    /\ m_ssl (this st1) = m_ssl (this st)
    /\ m_secureReady (this st1) = m_secureReady (this st)
    /\ m_fatal (this st1) = true
    /\ secureRead e size count st1 = Some ((-1, ret_SSL_read e), st2)
    /\ trace st2
       = trace st ++ [SSL_shutdown (Some h); TCPSocket_close;
                      LOG CLOG_DEBUG2 "reading secure socket" [];
                      SSL_read (Some h) size] ++ after
    /\ Forall (fun ev => is_engine_call ev = false) after
    /\ m_ssl (this st2) = m_ssl (this st).
Proof.
  intros Hssl. rewrite close_run, Hssl.
  set (st1 := mk_State (statics st)
                (mk_SecureSocket (m_secureReady (this st)) true
                   (m_maxRetry (this st)) (m_ssl (this st)))
                (trace st ++ [SSL_shutdown (Some h); TCPSocket_close])).
  destruct (proj1 (proj2 (proj2 (fatal_is_final_run e size count st1 eq_refl)) h Hssl))
    as (st2 & Hread & _).
  destruct (secureRead_handle e size count st1 h Hssl) as (st2' & Hcheck & Hread').
  rewrite Hread in Hread'.
  apply checkResult_trace in Hcheck as (Hsame & _ & after & Htrace & Hquiet).
  injection Hread' as _ <-.
  exists st1, st2, after. split; [reflexivity|].
  split; [reflexivity|]. split; [reflexivity|]. split; [reflexivity|].
  split; [exact Hread|]. split; [|split; [exact Hquiet|exact Hsame]].
  rewrite Htrace. subst st1. cbn [logged trace]. rewrite <- !app_assoc. reflexivity.
Qed.

Lemma read_after_close_witness :
  Ssl.m_ssl (m_ssl connected) = Some 2%positive
  /\ exists st1 st2,
       close (mk_State fresh_statics connected []) = Some (tt, st1)
       /\ secureRead (negotiated None) 16 0 st1 = Some ((-1, 1), st2).
Proof.
  split; [reflexivity|].
  destruct (read_after_close (negotiated None) 16 0
              (mk_State fresh_statics connected []) 2%positive eq_refl)
    as (st1 & st2 & after & Hclose & _ & _ & _ & Hread & _).
  exists st1, st2. split; assumption.
Defined.

(** ** Formatting, on every input *)

Lemma insertSeparators_length (n : nat) :
  forall (i : nat) (s : String),
    (1 <= i)%nat ->
    (n = 0 \/ i * 3 - 1 + 2 * (n - 1) <= length s)%nat ->
    exists out, insertSeparators n i s = Some out
                /\ length out = (length s + n)%nat.
Proof.
  induction n as [|n IH]; intros i s Hi Hroom.
  - exists s. split; [reflexivity|lia].
  - cbn [insertSeparators]. unfold String_insert.
    destruct Hroom as [Hroom|Hroom]; [discriminate|].
    replace (i * 3 - 1 <=? length s)%nat with true
      by (symmetry; apply Nat.leb_le; lia).
    destruct (IH (S i) (take (i * 3 - 1) s ++ [colon] ++ drop (i * 3 - 1) s))
      as (out & Hout & Hlen).
    + lia.
    + rewrite !length_app, length_take, length_drop. cbn [length]. lia.
    + exists out. split; [exact Hout|].
      rewrite Hlen, !length_app, length_take, length_drop. cbn [length]. lia.
Qed.

Lemma length_toHex (s : String) (width : nat) :
  length (toHex s width) = (2 * length s)%nat.
Proof.
  unfold toHex. induction s as [|c s IH]; [reflexivity|].
  cbn [flat_map length app]. rewrite IH. lia.
Qed.

(** X14: formatting never throws.  On every string and with either flag
    [formatFingerprint] returns: no insertion of a separator falls outside
    the string.  The result has the length of the input, doubled when it is
    hex-encoded, plus one colon for every pair of characters but the
    first. *)
Theorem formatFingerprint_returns (fingerprint : String) (hex separator : bool) :
  let encoded := if hex then (2 * length fingerprint)%nat else length fingerprint in
  exists out,
    formatFingerprint fingerprint hex separator = Some out
    /\ length out
       = if separator then (encoded + (encoded / 2 - 1))%nat else encoded.
Proof.
  cbv zeta. unfold formatFingerprint.
  set (s := uppercase (if hex then toHex fingerprint 2 else fingerprint)).
  assert (Hlen : length s
                 = if hex then (2 * length fingerprint)%nat else length fingerprint).
  { subst s. unfold uppercase. rewrite length_map.
    destruct hex; [apply length_toHex|reflexivity]. }
  rewrite <- Hlen.
  destruct separator; [|exists s; split; reflexivity].
  apply insertSeparators_length; [lia|].
  destruct (length s / 2 - 1)%nat eqn:Hn; [left; reflexivity|right].
  pose proof (Nat.div_mod_eq (length s) 2) as Hdiv. lia.
Qed.

(** ** Fingerprints tell digests apart *)

Lemma upperHexDigit_inj (m n : N) :
  (m < 16)%N -> (n < 16)%N -> upperHexDigit m = upperHexDigit n -> m = n.
Proof.
  intros Hm Hn.
  assert (Hcases : forall k, (k < 16)%N ->
            (k = 0 \/ k = 1 \/ k = 2 \/ k = 3 \/ k = 4 \/ k = 5 \/ k = 6 \/ k = 7
             \/ k = 8 \/ k = 9 \/ k = 10 \/ k = 11 \/ k = 12 \/ k = 13 \/ k = 14
             \/ k = 15)%N) by (intros k Hk; lia).
  destruct (Hcases m Hm) as [->|[->|[->|[->|[->|[->|[->|[->|[->|[->|[->|[->|[->|[->|[->| ->]]]]]]]]]]]]]]];
  destruct (Hcases n Hn) as [->|[->|[->|[->|[->|[->|[->|[->|[->|[->|[->|[->|[->|[->|[->| ->]]]]]]]]]]]]]]];
  intros H; first [reflexivity | discriminate H].
Qed.

Lemma hexGroup_inj (c c' : ascii) : hexGroup c = hexGroup c' -> c = c'.
Proof.
  unfold hexGroup. intros [= Hhi Hlo].
  pose proof (N_ascii_bounded c) as Hc. pose proof (N_ascii_bounded c') as Hc'.
  apply upperHexDigit_inj in Hhi;
    [|apply N.Div0.div_lt_upper_bound; lia|apply N.Div0.div_lt_upper_bound; lia].
  apply upperHexDigit_inj in Hlo;
    [|apply N.mod_lt; lia|apply N.mod_lt; lia].
  rewrite <- (ascii_N_embedding c), <- (ascii_N_embedding c'). f_equal.
  rewrite (N.div_mod (N_of_ascii c) 16), (N.div_mod (N_of_ascii c') 16) by lia.
  rewrite Hhi, Hlo. reflexivity.
Qed.

Lemma canonicalForm_cons (c : ascii) (digest : String) :
  canonicalForm (c :: digest)
  = hexGroup c ++ match digest with
                  | [] => []
                  | _ :: _ => colon :: canonicalForm digest
                  end.
Proof.
  unfold canonicalForm. destruct digest as [|c' digest]; cbn [map joinWith].
  - rewrite app_nil_r. reflexivity.
  - reflexivity.
Qed.

Lemma canonicalForm_inj (d1 : String) :
  forall d2, canonicalForm d1 = canonicalForm d2 -> d1 = d2.
Proof.
  induction d1 as [|c d1 IH]; intros [|c' d2] Heq.
  - reflexivity.
  - apply (f_equal length) in Heq. rewrite !length_canonicalForm in Heq.
    cbn [length] in Heq. lia.
  - apply (f_equal length) in Heq. rewrite !length_canonicalForm in Heq.
    cbn [length] in Heq. lia.
  - rewrite !canonicalForm_cons in Heq. unfold hexGroup in Heq.
    cbn [app] in Heq. injection Heq as Hhi Hlo Hrest.
    assert (c = c') as <- by (apply hexGroup_inj; unfold hexGroup; congruence).
    f_equal.
    destruct d1 as [|x d1], d2 as [|y d2]; try discriminate Hrest.
    + reflexivity.
    + apply IH. injection Hrest as Hrest. exact Hrest.
Qed.

(** X15: the fingerprint determines the digest.  Two raw digests, of any
    length, that format to the same fingerprint are the same digest. *)
Theorem formatFingerprint_injective (d1 d2 : String) :
  formatFingerprint d1 true true = formatFingerprint d2 true true -> d1 = d2.
Proof.
  rewrite !formatFingerprint_canonicalForm. intros [= Heq].
  apply canonicalForm_inj, Heq.
Qed.

Lemma formatFingerprint_injective_witness :
  formatFingerprint sample_digest true true = formatFingerprint sample_digest true true
  /\ sample_digest = sample_digest.
Proof.
  split; [reflexivity|].
  exact (formatFingerprint_injective sample_digest sample_digest eq_refl).
Defined.

(** ** More on the trust store *)

Lemma existsb_Permutation {A} (f : A -> bool) (l1 l2 : list A) :
  Permutation l1 l2 -> existsb f l1 = existsb f l2.
Proof.
  induction 1 as [|x l1 l2 _ IH|x y l|l1 l2 l3 _ IH1 _ IH2]; cbn [existsb].
  - reflexivity.
  - rewrite IH. reflexivity.
  - destruct (f x), (f y); reflexivity.
  - rewrite IH1. exact IH2.
Qed.

(** X16: the order of the lines does not matter.  Two trust-store files
    whose lines are the same up to order answer alike for every
    fingerprint. *)
Theorem lookupTrustedServers_order (text1 text2 fingerprint : String) :
  Permutation (lines text1) (lines text2) ->
  lookupTrustedServers (Some text1) fingerprint
  = lookupTrustedServers (Some text2) fingerprint.
Proof.
  intros Hperm. rewrite !lookupTrustedServers_present.
  f_equal. apply existsb_Permutation, Hperm.
Qed.

Lemma lookupTrustedServers_order_witness :
  Permutation (lines trusting_store) (lines swapped_store)
  /\ lookupTrustedServers (Some swapped_store) sample_fingerprint = Some true.
Proof.
  assert (Hperm : Permutation (lines trusting_store) (lines swapped_store)).
  { change (lines trusting_store)
      with [removelast altered_store; sample_fingerprint; []].
    change (lines swapped_store)
      with [sample_fingerprint; removelast altered_store; []].
    apply perm_swap. }
  split; [exact Hperm|].
  rewrite <- (lookupTrustedServers_order trusting_store swapped_store
                sample_fingerprint Hperm).
  reflexivity.
Defined.

Lemma lines_app_newline (a b : String) :
  lines (a ++ newline :: b) = lines a ++ lines b.
Proof.
  induction a as [|c a IH]; cbn [app lines].
  - reflexivity.
  - destruct (Ascii.eqb c newline); [rewrite IH; reflexivity|].
    rewrite IH. pose proof (lines_nonempty a) as Hne.
    destruct (lines a); [contradiction|reflexivity].
Qed.

Lemma lines_one (s : String) : ~ In newline s -> lines s = [s].
Proof.
  induction s as [|c s IH]; intros Hnl; [reflexivity|].
  cbn [lines]. destruct (Ascii.eqb_spec c newline) as [->|Hc].
  - contradiction Hnl. left. reflexivity.
  - rewrite IH; [reflexivity|]. intros Hin. apply Hnl. right. exact Hin.
Qed.

(** X17: a line written is a line found, and adding never revokes.  Append
    to any trust-store text a newline, a non-empty fingerprint that holds no
    newline, and a newline: the fingerprint is trusted afterwards, and so is
    every fingerprint that was trusted before. *)
Theorem lookupTrustedServers_append (store fingerprint other : String) :
  fingerprint <> [] ->
  ~ In newline fingerprint ->
  lookupTrustedServers (Some (store ++ newline :: fingerprint ++ [newline]))
    fingerprint = Some true
  /\ (lookupTrustedServers (Some store) other = Some true ->
      lookupTrustedServers (Some (store ++ newline :: fingerprint ++ [newline]))
        other = Some true).
Proof.
  intros Hne Hnl. rewrite !lookupTrustedServers_present.
  rewrite (lines_app_newline store (fingerprint ++ [newline])).
  rewrite (lines_app_newline fingerprint []).
  rewrite (lines_one fingerprint Hnl). rewrite !existsb_app. split.
  - f_equal. cbn [existsb].
    replace (grants fingerprint fingerprint) with true
      by (symmetry; apply grants_spec; split; [exact Hne|reflexivity]).
    apply orb_true_r.
  - intros [= ->]. reflexivity.
Qed.

Lemma lookupTrustedServers_append_witness :
  sample_fingerprint <> []
  /\ lookupTrustedServers
       (Some (altered_store ++ newline :: sample_fingerprint ++ [newline]))
       sample_fingerprint = Some true.
Proof.
  split; [discriminate|].
  apply (lookupTrustedServers_append altered_store sample_fingerprint []).
  - discriminate.
  - cbn. intros H.
    repeat (destruct H as [H|H]; [discriminate H|]). exact H.
Defined.

(** X18: the match is exact.  A line that holds the fingerprint with
    anything before or after it, a carriage return left by another line
    ending or a blank, does not grant trust: a file whose only line is
    such a line answers false. *)
Theorem lookupTrustedServers_exact (before after fingerprint : String) :
  before ++ after <> [] ->
  ~ In newline (before ++ fingerprint ++ after) ->
  lookupTrustedServers (Some (before ++ fingerprint ++ after ++ [newline]))
    fingerprint = Some false.
Proof.
  intros Hextra Hnl. rewrite lookupTrustedServers_present.
  replace (before ++ fingerprint ++ after ++ [newline])
    with ((before ++ fingerprint ++ after) ++ newline :: [])
    by (rewrite <- !app_assoc; reflexivity).
  rewrite (lines_app_newline _ _), (lines_one _ Hnl).
  cbn [lines app existsb]. f_equal.
  replace (grants fingerprint []) with false
    by (symmetry; apply not_true_is_false; rewrite grants_spec; tauto).
  rewrite !orb_false_r. apply not_true_is_false. rewrite grants_spec.
  intros [_ Heq]. apply (f_equal length) in Heq.
  rewrite !length_app in Heq.
  destruct before, after; cbn [length] in Heq; try lia.
  contradiction Hextra. reflexivity.
Qed.

Lemma lookupTrustedServers_exact_witness :
  [] ++ [carriage_return] <> []
  /\ lookupTrustedServers
       (Some ([] ++ sample_fingerprint ++ [carriage_return] ++ [newline]))
       sample_fingerprint = Some false.
Proof.
  split; [discriminate|].
  apply (lookupTrustedServers_exact [] [carriage_return] sample_fingerprint).
  - discriminate.
  - cbn. intros H.
    repeat (destruct H as [H|H]; [discriminate H|]). exact H.
Defined.

(** X19: what [verifyCertFingerprint] decides.  With a digest that reports
    a positive result and a trust store that opens but cannot be read, it
    does not return.  In every other case it returns, having changed no
    member and no static and sent no notification, and it returns true
    exactly when the digest reports a positive result and the fingerprint
    the digest bytes format to is a non-empty line of the trust-store
    file. *)
Theorem verifyCertFingerprint_decides (e : Engine) (store : Stored) (st : State) :
  let digest := ret_X509_digest e (ret_SSL_get_peer_certificate e) in
  let fingerprint := canonicalForm (snd digest) in
  (0 < fst digest -> store = cannot_read ->
   verifyCertFingerprint_on e store st = None)
  /\ (fst digest <= 0 \/ store <> cannot_read ->
      exists isValid events,
        verifyCertFingerprint_on e store st = Some (isValid, logged st events)
        /\ (isValid = true <->
            0 < fst digest
            /\ exists text,
                 store = holds text
                 /\ In fingerprint (lines text)
                 /\ fingerprint <> [])
        /\ Forall (fun ev => is_notification ev = false) events).
Proof.
  cbv zeta. rewrite verifyCertFingerprint_on_run. cbv zeta.
  destruct (Z.leb_spec (fst (ret_X509_digest e (ret_SSL_get_peer_certificate e))) 0)
    as [Hd|Hd].
  - split; [lia|]. intros _. do 2 eexists. split; [reflexivity|].
    split; [|repeat constructor].
    split; [discriminate|]. lia.
  - split; [intros _ ->; reflexivity|].
    intros [Hle|Hstore]; [lia|].
    destruct store as [|text|]; [| |contradiction Hstore; reflexivity].
    + do 2 eexists. split; [reflexivity|]. split; [|repeat constructor].
      split; [discriminate|]. intros (_ & text & Habs & _). discriminate Habs.
    + rewrite lookupStored_holds. do 2 eexists. split; [reflexivity|].
      split; [|repeat constructor].
      split.
      * intros Hex. split; [exact Hd|].
        apply (trusted_lines (Some text)) in Hex as (text' & [= <-] & Hin & Hne).
        exists text. auto.
      * intros (_ & text' & [= <-] & Hin & Hne).
        apply (trusted_lines (Some text)). exists text. auto.
Qed.

Lemma verifyCertFingerprint_decides_witness :
  (fst (ret_X509_digest (negotiated None)
          (ret_SSL_get_peer_certificate (negotiated None))) <= 0
   \/ holds trusting_store <> cannot_read)
  /\ exists isValid events,
       verifyCertFingerprint_on (negotiated None) (holds trusting_store)
         (mk_State fresh_statics handshaking [])
       = Some (isValid, logged (mk_State fresh_statics handshaking []) events).
Proof.
  assert (Hstore : fst (ret_X509_digest (negotiated None)
                          (ret_SSL_get_peer_certificate (negotiated None))) <= 0
                   \/ holds trusting_store <> cannot_read)
    by (right; discriminate).
  split; [exact Hstore|].
  destruct (proj2 (verifyCertFingerprint_decides (negotiated None)
                     (holds trusting_store)
                     (mk_State fresh_statics handshaking [])) Hstore)
    as (isValid & events & Hrun & _).
  exists isValid, events. exact Hrun.
Defined.

(** ** Loading the certificate *)

Lemma showError_run (e : Engine) (reason : option String) (st : State) :
  exists events,
    showError e reason st = Some (tt, logged st events)
    /\ Forall (fun ev => is_report ev = true) events
    /\ match reason with
       | Some r => exists rest, events = LOG CLOG_ERR "%s" [arg_str r] :: rest
       | None => True
       end.
Proof.
  unfold showError. run_M.
  destruct reason as [r|]; run_step;
    destruct (ret_ERR_get_error e =? 0); run_step;
    try (destruct (String_empty (ret_ERR_error_string e)); run_step);
    unfold logged; rewrite <- ?app_assoc; cbn [app];
    (eexists; split; [reflexivity|]; split; [repeat constructor|]);
    first [exact I | eexists; reflexivity].
Qed.


(** ** A context that could not be created *)


